(** * Lepo project builder: template composition and step execution

    A shallow embedding of the template engine of the Lepo command line
    tool ([ProjectBuilder] in [src/core/project-builder/project-builder.ts]
    and [FileTemplater] in [src/utils/file-templater.ts]) together with the
    properties its design document states about it.

    Conventions of the embedding:
    - JavaScript strings and file contents are [string]s (sequences of
      bytes); texts are taken to be ASCII / valid UTF-8, so that code units
      and bytes can be identified;
    - an absolute path is the list of its segments, [path.resolve dir name]
      for a directory entry [name] is [dir ++ [name]];
    - a JavaScript object used as a record is an association list in
      property-enumeration order;
    - a thrown exception is the [None] / [Throw] result of the function. *)

From stdpp Require Import gmap strings list sorting pretty.
From Stdlib Require Import Ascii ZArith Lia.

Set Warnings "-register-all".

#[global] Arguments String.append !s1 s2 / : simpl nomatch.

(** ** JavaScript string primitives *)

Module JsString.

(** [p] is an initial part of [s]. *)
Fixpoint isPrefix (p s : string) : bool :=
  match p, s with
  | EmptyString, _ => true
  | String a p', String b s' => Ascii.eqb a b && isPrefix p' s'
  | String _ _, EmptyString => false
  end.

(** [s.startsWith(p)] *)
Definition startsWith (s p : string) : bool := isPrefix p s.

(** [s.endsWith(p)] *)
Fixpoint endsWith (s p : string) : bool :=
  if String.eqb s p then true
  else match s with
       | EmptyString => false
       | String _ s' => endsWith s' p
       end.

(** [s.includes(p)] *)
Fixpoint includes (s p : string) : bool :=
  if isPrefix p s then true
  else match s with
       | EmptyString => false
       | String _ s' => includes s' p
       end.

(** The suffix of [s] from index [n] on, [s.slice(n)]. *)
Fixpoint drop (n : nat) (s : string) : string :=
  match n, s with
  | S k, String _ s' => drop k s'
  | _, _ => s
  end.

(** [s.slice(b, -e)] for non-negative [b] and [e]: the characters from
    index [b] up to, and without, the last [e] ones. *)
Definition slice (s : string) (b e : nat) : string :=
  String.substring b (String.length s - e - b) s.

(** White space removed by [trim] (the ASCII part of it). *)
Definition is_space (c : ascii) : bool :=
  let n := nat_of_ascii c in
  (n =? 32)%nat || ((9 <=? n)%nat && (n <=? 13)%nat).

Fixpoint trimStart (s : string) : string :=
  match s with
  | String c s' => if is_space c then trimStart s' else s
  | EmptyString => EmptyString
  end.

Fixpoint trimEnd (s : string) : string :=
  match s with
  | String c s' =>
      match trimEnd s' with
      | EmptyString => if is_space c then EmptyString else String c EmptyString
      | r => String c r
      end
  | EmptyString => EmptyString
  end.

(** [s.trim()] *)
Definition trim (s : string) : string := trimEnd (trimStart s).

(** The replacement text of one match ([GetSubstitution] of ECMAScript) for
    a pattern without capture groups: [$$] is a dollar sign, [$&] the
    matched text, [$`] the text before the match and [$'] the text after
    it; any other character, a dollar sign included, stands for itself. *)
Fixpoint getSubstitution (matched before after template : string) : string :=
  match template with
  | EmptyString => EmptyString
  | String c rest =>
      if Ascii.eqb c "$" then
        match rest with
        | String d rest' =>
            if Ascii.eqb d "$" then String "$" (getSubstitution matched before after rest')
            else if Ascii.eqb d "&" then matched +:+ getSubstitution matched before after rest'
            else if Ascii.eqb d "`" then before +:+ getSubstitution matched before after rest'
            else if Ascii.eqb d "'" then after +:+ getSubstitution matched before after rest'
            else String c (getSubstitution matched before after rest)
        | EmptyString => String c EmptyString
        end
      else String c (getSubstitution matched before after rest)
  end.

(** The scan of [replaceAll]: [before] is the text already passed and
    [skip] the number of characters of the current match still to pass. *)
Fixpoint replaceFrom (lit repl before : string) (skip : nat) (s : string) : string :=
  match s with
  | EmptyString =>
      match lit with
      | EmptyString => getSubstitution lit before s repl
      | _ => EmptyString
      end
  | String c s' =>
      match skip with
      | S k => replaceFrom lit repl (before +:+ String c EmptyString) k s'
      | O =>
          match lit with
          | EmptyString =>
              getSubstitution lit before s repl
                +:+ String c (replaceFrom lit repl (before +:+ String c EmptyString) 0 s')
          | _ =>
              if isPrefix lit s then
                getSubstitution lit before (drop (String.length lit) s) repl
                  +:+ replaceFrom lit repl (before +:+ String c EmptyString)
                       (String.length lit - 1) s'
              else String c (replaceFrom lit repl (before +:+ String c EmptyString) 0 s')
          end
      end
  end.

(** [s.replaceAll(lit, repl)] for a string pattern [lit], which is also
    [s.replace(re, repl)] for a global regular expression [re] that matches
    the literal [lit]: the matches are found from left to right and do not
    overlap, and [repl] is expanded by [getSubstitution] at each of them. *)
Definition replaceAll (s lit repl : string) : string :=
  replaceFrom lit repl EmptyString 0 s.

(** [parts.join(sep)] *)
Fixpoint join (sep : string) (parts : list string) : string :=
  match parts with
  | [] => EmptyString
  | [p] => p
  | p :: ps => p +:+ sep +:+ join sep ps
  end.

End JsString.

Example replaceAll_ex1 :
  JsString.replaceAll "a-b-c" "-" "+" = "a+b+c".
Proof. reflexivity. Qed.

Example replaceAll_ex2 :
  JsString.replaceAll "xaay" "a" "[$`|$&|$'|$$|$1]" = "x[x|a|ay|$|$1][xa|a|y|$|$1]y".
Proof. reflexivity. Qed.

Example replaceAll_ex3 :
  JsString.replaceAll "aaa" "aa" "b" = "ba".
Proof. reflexivity. Qed.

Example replaceAll_ex4 :
  JsString.replaceAll "ab" "" "-" = "-a-b-".
Proof. reflexivity. Qed.

Example slice_ex : JsString.slice "<inherit:base>" 9 1 = "base".
Proof. reflexivity. Qed.

Example trim_ex : JsString.trim "  a b  " = "a b".
Proof. reflexivity. Qed.

(** ** Facts about the string primitives *)

Section StringFacts.

Lemma append_empty_r (s : string) : s +:+ "" = s.
Proof. induction s as [|c s IH]; simpl; [done | by rewrite IH]. Qed.

Lemma append_assoc (a b c : string) : (a +:+ b) +:+ c = a +:+ (b +:+ c).
Proof. induction a as [|x a IH]; simpl; [done | by rewrite IH]. Qed.

Lemma length_append (a b : string) :
  String.length (a +:+ b) = (String.length a + String.length b)%nat.
Proof. induction a as [|x a IH]; simpl; [done | by rewrite IH]. Qed.

Lemma prefix_append (p t : string) : JsString.isPrefix p (p +:+ t) = true.
Proof.
  induction p as [|c p IH]; simpl; [done |].
  by rewrite Ascii.eqb_refl.
Qed.

Lemma prefix_inv (p s : string) :
  JsString.isPrefix p s = true → ∃ t, s = p +:+ t.
Proof.
  revert s. induction p as [|c p IH]; intros s H.
  - by exists s.
  - destruct s as [|d s]; simpl in H; [done |].
    apply andb_prop in H as [->%Ascii.eqb_eq H].
    destruct (IH s H) as [t ->]. by exists t.
Qed.

Lemma drop_append (a b : string) : JsString.drop (String.length a) (a +:+ b) = b.
Proof. induction a as [|x a IH]; simpl; [by destruct b | exact IH]. Qed.

(** Two ways of cutting one text: the shorter first part is a prefix of
    the longer one. *)
Lemma append_split (x y u v : string) :
  x +:+ y = u +:+ v → (String.length x <= String.length u)%nat →
  ∃ w, u = x +:+ w ∧ y = w +:+ v.
Proof.
  revert u. induction x as [|c x IH]; intros u Heq Hlen.
  - exists u. by simpl in *.
  - destruct u as [|d u]; simpl in *; [lia |].
    injection Heq as -> Heq.
    destruct (IH u Heq ltac:(lia)) as (w & -> & ->). by exists w.
Qed.

Lemma includes_false_drop (s p : string) (i : nat) :
  JsString.includes s p = false → JsString.isPrefix p (JsString.drop i s) = false.
Proof.
  revert i. induction s as [|c s IH]; intros i H; simpl in H.
  - destruct (JsString.isPrefix p "") eqn:E; [done |]. by destruct i.
  - destruct (JsString.isPrefix p (String c s)) eqn:E; [done |].
    destruct i as [|i]; [exact E | apply IH, H].
Qed.

End StringFacts.

(** A text is unbordered when none of its proper non-empty suffixes is
    also one of its prefixes: two occurrences of it never overlap. *)
Definition unbordered (lit : string) : Prop :=
  ∀ k, (0 < k < String.length lit)%nat →
       JsString.isPrefix (JsString.drop k lit) lit = false.




(** The text holds no dollar sign, the one character that
    [getSubstitution] reads specially. *)
Fixpoint no_dollar (s : string) : bool :=
  match s with
  | EmptyString => true
  | String c s' => negb (Ascii.eqb c "$") && no_dollar s'
  end.

Section ReplaceAllFacts.

Implicit Types lit repl before rest seg : string.

Lemma getSubstitution_plain (m b a t : string) :
  no_dollar t = true → JsString.getSubstitution m b a t = t.
Proof.
  induction t as [|c t IH]; simpl; [done |].
  intros [Hc Ht]%andb_prop. apply negb_true_iff in Hc. rewrite Hc.
  by rewrite IH.
Qed.

Lemma replaceFrom_empty lit repl before :
  lit ≠ "" → JsString.replaceFrom lit repl before 0 "" = "".
Proof. by destruct lit. Qed.

Lemma replaceFrom_skip lit repl (x : string) rest before :
  JsString.replaceFrom lit repl before (String.length x) (x +:+ rest)
  = JsString.replaceFrom lit repl (before +:+ x) 0 rest.
Proof.
  revert before. induction x as [|c x IH]; intros before; simpl.
  - by rewrite append_empty_r.
  - rewrite IH. by rewrite append_assoc.
Qed.

Lemma replaceFrom_match lit repl rest before :
  lit ≠ "" →
  JsString.replaceFrom lit repl before 0 (lit +:+ rest)
  = JsString.getSubstitution lit before rest repl
    +:+ JsString.replaceFrom lit repl (before +:+ lit) 0 rest.
Proof.
  intros Hne. destruct lit as [|c l]; [done |].
  change (String c l +:+ rest) with (String c (l +:+ rest)).
  cbn [JsString.replaceFrom].
  change (String c (l +:+ rest)) with (String c l +:+ rest).
  rewrite prefix_append, drop_append.
  f_equal.
  replace (String.length (String c l) - 1)%nat with (String.length l)
    by (simpl; lia).
  rewrite replaceFrom_skip. by rewrite append_assoc.
Qed.

(** A stretch of text in which no match begins is copied as it is. *)
Lemma replaceFrom_verbatim lit repl seg rest before :
  lit ≠ "" →
  (∀ i, (i < String.length seg)%nat →
        JsString.isPrefix lit (JsString.drop i (seg +:+ rest)) = false) →
  JsString.replaceFrom lit repl before 0 (seg +:+ rest)
  = seg +:+ JsString.replaceFrom lit repl (before +:+ seg) 0 rest.
Proof.
  intros Hne. revert before. induction seg as [|c seg IH]; intros before H.
  - simpl. by rewrite append_empty_r.
  - change (String c seg +:+ rest) with (String c (seg +:+ rest)).
    cbn [JsString.replaceFrom].
    pose proof (H 0%nat ltac:(simpl; lia)) as H0. simpl JsString.drop in H0.
    change (String c seg +:+ rest) with (String c (seg +:+ rest)) in H0.
    rewrite H0. rewrite IH.
    + destruct lit; [done |]. simpl. by rewrite append_assoc.
    + intros i Hi. apply (H (S i)). simpl. lia.
Qed.

(** In front of an occurrence of an unbordered [lit], a stretch that does
    not contain [lit] holds no beginning of a match. *)
Lemma no_match_before_occurrence lit seg rest (i : nat) :
  unbordered lit → JsString.includes seg lit = false →
  (i < String.length seg)%nat →
  JsString.isPrefix lit (JsString.drop i (seg +:+ lit +:+ rest)) = false.
Proof.
  intros Hub. revert i. induction seg as [|c seg IH]; intros i Hinc Hi.
  - simpl in Hi. lia.
  - simpl in Hinc.
    destruct (JsString.isPrefix lit (String c seg)) eqn:Hp; [done |].
    destruct i as [|i].
    + simpl JsString.drop.
      destruct (JsString.isPrefix lit (String c seg +:+ lit +:+ rest)) eqn:Hq; [| done].
      exfalso. apply prefix_inv in Hq as [t Ht].
      destruct (decide (String.length lit <= String.length (String c seg))%nat)
        as [Hle|Hgt].
      * symmetry in Ht. destruct (append_split _ _ _ _ Ht Hle) as (w & Hw & _).
        rewrite Hw, prefix_append in Hp. done.
      * destruct (append_split _ _ _ _ Ht ltac:(lia)) as (w & Hw & Hw').
        assert (Hwlen : (String.length w < String.length lit)%nat).
        { rewrite Hw, length_append. simpl. lia. }
        symmetry in Hw'.
        destruct (append_split _ _ _ _ Hw' ltac:(lia)) as (w' & Hw'' & _).
        assert (Hb : JsString.isPrefix
                       (JsString.drop (String.length (String c seg)) lit) lit = false).
        { apply Hub. simpl. simpl in Hgt. lia. }
        rewrite Hw in Hb at 1. rewrite drop_append in Hb.
        rewrite Hw'' in Hb. by rewrite prefix_append in Hb.
    + apply IH; [exact Hinc | simpl in Hi; lia].
Qed.

(** Every occurrence is replaced and the text between the occurrences is
    kept: a text cut at the occurrences of [lit] is rebuilt with the
    replacement in their place. *)
Lemma replaceFrom_join lit repl (segs : list string) before :
  lit ≠ "" → unbordered lit → no_dollar repl = true →
  Forall (λ seg, JsString.includes seg lit = false) segs →
  JsString.replaceFrom lit repl before 0 (JsString.join lit segs)
  = JsString.join repl segs.
Proof.
  intros Hne Hub Hnd. revert before.
  induction segs as [|seg segs IH]; intros before Hall.
  - by destruct lit.
  - apply Forall_cons in Hall as [Hseg Hall].
    destruct segs as [|seg' segs].
    + simpl JsString.join.
      rewrite <- (append_empty_r seg) at 1.
      rewrite replaceFrom_verbatim; [| done |].
      * rewrite replaceFrom_empty by done. by rewrite append_empty_r.
      * intros i _. rewrite append_empty_r. by apply includes_false_drop.
    + change (JsString.join lit (seg :: seg' :: segs))
        with (seg +:+ lit +:+ JsString.join lit (seg' :: segs)).
      change (JsString.join repl (seg :: seg' :: segs))
        with (seg +:+ repl +:+ JsString.join repl (seg' :: segs)).
      rewrite replaceFrom_verbatim; [| done |].
      * rewrite replaceFrom_match, getSubstitution_plain by done.
        by rewrite IH.
      * intros i Hi. by apply no_match_before_occurrence.
Qed.

Lemma replaceAll_join lit repl (segs : list string) :
  lit ≠ "" → unbordered lit → no_dollar repl = true →
  Forall (λ seg, JsString.includes seg lit = false) segs →
  JsString.replaceAll (JsString.join lit segs) lit repl = JsString.join repl segs.
Proof. apply replaceFrom_join. Qed.

(** A text without any occurrence is left as it is. *)
Lemma replaceAll_absent lit repl (s : string) :
  lit ≠ "" → JsString.includes s lit = false → JsString.replaceAll s lit repl = s.
Proof.
  intros Hne H. unfold JsString.replaceAll.
  rewrite <- (append_empty_r s) at 1. rewrite replaceFrom_verbatim; [| done |].
  - rewrite replaceFrom_empty by done. by rewrite append_empty_r.
  - intros i _. rewrite append_empty_r. by apply includes_false_drop.
Qed.

End ReplaceAllFacts.

(** ** Placeholder substitution ([FileTemplater], and the same loop inlined
    in [ProjectBuilder]) *)

Module Templater.

(** [boolean | number | string]: the values of a [VariablesMap].  Numbers
    are the integers that [String] prints in plain decimal notation. *)
Inductive value : Type :=
  | VBool (b : bool)
  | VNum (n : Z)
  | VStr (s : string).

(** A [VariablesMap], its keys in enumeration order. *)
Definition VariablesMap : Type := list (string * value).

(** [String(value)] *)
Definition String_ (v : value) : string :=
  match v with
  | VBool true => "true"
  | VBool false => "false"
  | VNum n => pretty n
  | VStr s => s
  end.

(** The characters of the class [[.*+?^${}()|[\]\\]]. *)
Definition is_syntax_char (c : ascii) : bool :=
  JsString.includes ".*+?^${}()|[]\" (String c EmptyString).

(** [escapeRegExp]: [str.replaceAll(/[.*+?^${}()|[\]\\]/g, '\\$&')], a
    backslash in front of every character of the class. *)
Fixpoint escapeRegExp (str : string) : string :=
  match str with
  | EmptyString => EmptyString
  | String c rest =>
      if is_syntax_char c then String "\" (String c (escapeRegExp rest))
      else String c (escapeRegExp rest)
  end.

(** [new RegExp(source, 'g')], for the sources made of ordinary characters
    and of syntax characters escaped by a backslash: the literal text such
    an expression matches.  [None] stands for every other source (a syntax
    error, or an expression that is not a literal). *)
Fixpoint RegExp (source : string) : option string :=
  match source with
  | EmptyString => Some EmptyString
  | String c rest =>
      if Ascii.eqb c "\" then
        match rest with
        | String d rest' =>
            if is_syntax_char d then String d <$> RegExp rest' else None
        | EmptyString => None
        end
      else if is_syntax_char c then None
      else String c <$> RegExp rest
  end.

(** The token of a variable: [`{{${key.trim()}}}`]. *)
Definition placeholder (key : string) : string :=
  "{{" +:+ JsString.trim key +:+ "}}".

(** One turn of the loop over the variables:
    [text.replace(new RegExp(escapeRegExp(placeholder), 'g'), String(value))]. *)
Definition replaceVariable (text : string) (kv : string * value) : option string :=
  lit ← RegExp (escapeRegExp (placeholder kv.1));
  Some (JsString.replaceAll text lit (String_ kv.2)).

(** [for (const key in variables) { ... }] over a text: the substitution
    [substitute(text, variables)] of the design document. *)
Fixpoint substitute (text : string) (variables : VariablesMap) : option string :=
  match variables with
  | [] => Some text
  | kv :: rest => text' ← replaceVariable text kv; substitute text' rest
  end.

End Templater.

Section TemplaterFacts.

Import Templater.

(** The escaped token is a well-formed expression that matches the token
    itself, letter for letter. *)
Lemma RegExp_escapeRegExp (s : string) : RegExp (escapeRegExp s) = Some s.
Proof.
  induction s as [|c s IH]; [done |].
  cbn [escapeRegExp]. destruct (is_syntax_char c) eqn:Hc.
  - cbn [RegExp]. rewrite Hc, IH. done.
  - cbn [RegExp]. rewrite Hc, IH.
    destruct (Ascii.eqb c "\") eqn:Hb; [| done].
    apply Ascii.eqb_eq in Hb as ->. done.
Qed.

Lemma replaceVariable_eq (text : string) (kv : string * value) :
  replaceVariable text kv
  = Some (JsString.replaceAll text (placeholder kv.1) (String_ kv.2)).
Proof. unfold replaceVariable. by rewrite RegExp_escapeRegExp. Qed.

(** Substitution never throws. *)
Lemma substitute_total (variables : VariablesMap) (text : string) :
  is_Some (substitute text variables).
Proof.
  revert text. induction variables as [|kv vs IH]; intros text; [by eexists |].
  cbn [substitute]. rewrite replaceVariable_eq. apply IH.
Qed.

Lemma placeholder_nonempty (key : string) : placeholder key ≠ "".
Proof. done. Qed.

(** Tokens of unknown variables stay: a text that holds the token of none
    of the variables comes back unchanged. *)
Lemma substitute_no_token (variables : VariablesMap) (text : string) :
  Forall (λ kv, JsString.includes text (placeholder kv.1) = false) variables →
  substitute text variables = Some text.
Proof.
  induction 1 as [|kv vs Hkv _ IH]; [done |].
  cbn [substitute]. rewrite replaceVariable_eq.
  rewrite replaceAll_absent by done. exact IH.
Qed.

(** With a value that holds no dollar sign, every occurrence of the token
    of a variable is replaced by [String(value)]. *)
Lemma replaceVariable_join (key : string) (v : value) (segs : list string) :
  unbordered (placeholder key) → no_dollar (String_ v) = true →
  Forall (λ seg, JsString.includes seg (placeholder key) = false) segs →
  replaceVariable (JsString.join (placeholder key) segs) (key, v)
  = Some (JsString.join (String_ v) segs).
Proof.
  intros Hub Hnd Hsegs. rewrite replaceVariable_eq.
  by rewrite replaceAll_join.
Qed.

End TemplaterFacts.

Example substitute_file_name :
  Templater.substitute "{{name}}.txt" [("name", Templater.VStr "x")] = Some "x.txt".
Proof. reflexivity. Qed.

Example substitute_heading :
  Templater.substitute "# {{name}}" [("name", Templater.VStr "x")] = Some "# x".
Proof. reflexivity. Qed.

Example substitute_missing :
  Templater.substitute "{{missing}}" [("name", Templater.VStr "x")] = Some "{{missing}}".
Proof. reflexivity. Qed.

Example substitute_trimmed_key :
  Templater.substitute "v{{n}}" [(" n ", Templater.VNum 42)] = Some "v42".
Proof. vm_compute. reflexivity. Qed.

(** C4 (code level).  A value is not always put in as [String(value)]: the
    replacement text of [String.prototype.replace] is read for the patterns
    [$$], [$&], [$`] and [$'], which neither [replaceInFile] nor the file
    name loop of [copyTemplateWithVariables] escapes.  With the value
    ["$&"] the token [{{name}}] stays in the text, and the value ["a$$b"]
    arrives as ["a$b"]. *)
Theorem C4_substitute_reads_dollar_patterns :
  Templater.substitute "{{name}}.txt" [("name", Templater.VStr "$&")]
    = Some "{{name}}.txt"
  ∧ Templater.substitute "{{name}}.txt" [("name", Templater.VStr "$&")]
    ≠ Some ("$&" +:+ ".txt")
  ∧ Templater.substitute "# {{name}}" [("name", Templater.VStr "a$$b")]
    = Some "# a$b".
Proof.
  split; [reflexivity |]. split; [| reflexivity].
  vm_compute. discriminate.
Qed.

(** ** JSON documents and the package descriptor *)

Module Json.

(** A JavaScript value as [JSON.parse] builds it, and [JUndefined] for the
    value of a property that is read but absent.  An object is the list of
    its properties in enumeration order, which is insertion order for every
    property name that is not an array index. *)
Inductive json : Type :=
  | JUndefined
  | JNull
  | JBool (b : bool)
  | JNum (n : Z)
  | JStr (s : string)
  | JArr (items : list json)
  | JObj (props : list (string * json)).

Abbreviation props := (list (string * json)) (only parsing).

Definition keys (o : props) : list string := o.*1.

(** [key in obj] *)
Definition hasProp (o : props) (key : string) : bool :=
  bool_decide (key ∈ keys o).

(** [obj[key]] *)
Fixpoint getProp (o : props) (key : string) : json :=
  match o with
  | [] => JUndefined
  | (k, v) :: rest => if String.eqb k key then v else getProp rest key
  end.

(** [obj[key] = v]: an existing property keeps its place, a new one goes
    to the end. *)
Fixpoint setProp (o : props) (key : string) (v : json) : props :=
  match o with
  | [] => [(key, v)]
  | (k, x) :: rest =>
      if String.eqb k key then (k, v) :: rest else (k, x) :: setProp rest key v
  end.

(** [{ ...a, ...b }] for two objects. *)
Definition spread (a b : props) : props :=
  foldl (λ acc kv, setProp acc kv.1 kv.2) a b.

(** [ToBoolean] *)
Definition truthy (v : json) : bool :=
  match v with
  | JUndefined | JNull | JBool false | JNum 0 | JStr EmptyString => false
  | _ => true
  end.

(** [a || b] *)
Definition or_else (a b : json) : json := if truthy a then a else b.

Definition is_undefined (v : json) : bool :=
  match v with JUndefined => true | _ => false end.

(** The properties [JSON.stringify] writes: those whose value is not
    [undefined]. *)
Definition written (o : props) : props :=
  filter (λ kv, is_undefined kv.2 = false) o.

(** The order of [Array.prototype.sort] without a comparator. *)
Definition key_le (a b : string) : Prop := String.leb a b = true.

#[global] Instance key_le_dec (a b : string) : Decision (key_le a b).
Proof. unfold key_le. apply _. Defined.

(** [Object.keys(obj).sort()] *)
Definition sortedKeys (o : props) : list string := merge_sort key_le (keys o).

(** The body of the loop over [['scripts', 'dependencies', 'devDependencies']]:
    a property that is an object is rebuilt with its keys in sorted order;
    [Object.keys(null)] throws. *)
Definition sortKey (merged : props) (key : string) : option props :=
  if hasProp merged key then
    match getProp merged key with
    | JObj o =>
        let sortedObj := foldl (λ acc k, setProp acc k (getProp o k)) [] (sortedKeys o) in
        Some (setProp merged key (JObj sortedObj))
    | JArr items =>
        let sortedObj := imap (λ i v, (pretty (Z.of_nat i), v)) items in
        Some (setProp merged key (JObj sortedObj))
    | JNull => None
    | _ => Some merged
    end
  else Some merged.

(** [mergePackageJson], on the two parsed documents: the value that is
    handed to [JSON.stringify].  Documents that are not objects are left
    out of the model ([None]). *)
Definition mergePackageJson (targetJson extraJson : json) : option props :=
  match targetJson, extraJson with
  | JObj target, JObj extra =>
      let mergedJson := spread target extra in
      let mergedJson := setProp mergedJson "name" (or_else (getProp target "name") (getProp extra "name")) in
      mergedJson ← sortKey mergedJson "scripts";
      mergedJson ← sortKey mergedJson "dependencies";
      sortKey mergedJson "devDependencies"
  | _, _ => None
  end.

(** [version?: Record<string, string> | string] *)
Inductive Version : Type :=
  | VersionString (v : string)
  | VersionMap (m : list (string * string)).

(** [isStableVersion] *)
Definition isStableVersion (ver : string) : bool :=
  forallb (λ tag, negb (JsString.includes ver tag))
          ["alpha"; "beta"; "rc"; "canary"; "nightly"].

(** The first block of [updatePackageJson]: the text that goes to
    [JSON.parse]. *)
Definition lockWorkspaceVersion (content : string) (version : option Version) : string :=
  match version with
  | Some (VersionString version) =>
      let targetVersion := if isStableVersion version then "^" +:+ version else version in
      JsString.replaceAll content "workspace:*" targetVersion
  | _ => content
  end.

(** [pkg.dependencies?.[depName]] and the assignment it guards, for one
    of the two dependency maps. *)
Definition pinDependency (field depName ver : string) (pkg : props) : option props :=
  match getProp pkg field with
  | JUndefined | JNull => Some pkg
  | JObj deps =>
      if truthy (getProp deps depName)
      then Some (setProp pkg field (JObj (setProp deps depName (JStr ver))))
      else Some pkg
  | _ => None
  end.

Section UpdatePackageJson.

(** [JSON.parse] and [JSON.stringify(_, null, 2)] of the runtime. *)
Variable JSON_parse : string → option json.
Variable JSON_stringify : json → string.

(** [updatePackageJson], from the text read to the text written.  A
    dependency map that is neither absent nor an object, and a document
    that is not an object, are left out of the model ([None]). *)
Definition updatePackageJson
    (content : string) (version : option Version) (name : option string)
    : option string :=
  let content := lockWorkspaceVersion content version in
  pkg ← JSON_parse content;
  match pkg with
  | JObj pkg =>
      pkg ← match version with
            | Some (VersionMap m) =>
                foldl (λ acc dv,
                         pkg ← acc;
                         pkg ← pinDependency "dependencies" dv.1 dv.2 pkg;
                         pinDependency "devDependencies" dv.1 dv.2 pkg)
                      (Some pkg) m
            | _ => Some pkg
            end;
      let pkg :=
        match name with
        | Some name =>
            if negb (String.eqb name "") && negb (String.eqb name ".")
            then setProp pkg "name" (JStr name) else pkg
        | None => pkg
        end in
      Some (JSON_stringify (JObj pkg) +:+ String (ascii_of_nat 10) EmptyString)
  | _ => None
  end.

End UpdatePackageJson.

End Json.

Example lockWorkspaceVersion_stable :
  Json.lockWorkspaceVersion "lepo: workspace:*" (Some (Json.VersionString "1.2.3"))
  = "lepo: ^1.2.3".
Proof. reflexivity. Qed.

Example lockWorkspaceVersion_beta :
  Json.lockWorkspaceVersion "lepo: workspace:*" (Some (Json.VersionString "1.2.3-beta"))
  = "lepo: 1.2.3-beta".
Proof. reflexivity. Qed.

Section LockWorkspaceVersion.

Import Json.







End LockWorkspaceVersion.

(** ** The merge of two package descriptors *)

Section MergePackageJson.

Import Json.

Lemma get_set_eq (o : props) (k : string) (v : json) : getProp (setProp o k v) k = v.
Proof.
  induction o as [|[k0 x] o IH]; simpl.
  - by rewrite String.eqb_refl.
  - destruct (String.eqb k0 k) eqn:E; simpl; rewrite E; [done | exact IH].
Qed.

Lemma get_set_ne (o : props) (k k' : string) (v : json) :
  k ≠ k' → getProp (setProp o k v) k' = getProp o k'.
Proof.
  intros Hne. induction o as [|[k0 x] o IH]; simpl.
  - by apply String.eqb_neq in Hne as ->.
  - destruct (String.eqb k0 k) eqn:E; simpl.
    + apply String.eqb_eq in E as ->. by apply String.eqb_neq in Hne as ->.
    + by rewrite IH.
Qed.

Lemma get_absent (o : props) (k : string) : k ∉ keys o → getProp o k = JUndefined.
Proof.
  induction o as [|[k0 x] o IH]; simpl; [done |].
  intros [Hne Hnin]%not_elem_of_cons.
  assert (String.eqb k0 k = false) as -> by (by apply String.eqb_neq).
  by apply IH.
Qed.

Lemma keys_set_fresh (o : props) (k : string) (v : json) :
  k ∉ keys o → setProp o k v = o ++ [(k, v)].
Proof.
  induction o as [|[k0 x] o IH]; simpl; [done |].
  intros [Hne Hnin]%not_elem_of_cons.
  assert (String.eqb k0 k = false) as -> by (by apply String.eqb_neq).
  by rewrite IH.
Qed.

Lemma keys_set_present (o : props) (k : string) (v : json) :
  k ∈ keys o → keys (setProp o k v) = keys o.
Proof.
  induction o as [|[k0 x] o IH]; simpl; [by intros ?%elem_of_nil |].
  intros Hin. destruct (String.eqb k0 k) eqn:E; [done |].
  apply String.eqb_neq in E. apply elem_of_cons in Hin as [->|Hin]; [done |].
  change (keys ((k0, x) :: setProp o k v)) with (k0 :: keys (setProp o k v)).
  by rewrite IH.
Qed.

Lemma has_true (o : props) (k : string) : hasProp o k = true ↔ k ∈ keys o.
Proof. unfold hasProp. by rewrite bool_decide_eq_true. Qed.

Lemma has_false (o : props) (k : string) : hasProp o k = false ↔ k ∉ keys o.
Proof. unfold hasProp. by rewrite bool_decide_eq_false. Qed.

(** The spread is shallow: a property of the second object replaces the
    property of the first one as a whole. *)
Lemma get_spread (a b : props) (k : string) :
  NoDup (keys b) →
  getProp (spread a b) k = if hasProp b k then getProp b k else getProp a k.
Proof.
  unfold spread. revert a. induction b as [|[k0 v0] b IH]; intros a Hnd; [done |].
  apply NoDup_cons in Hnd as [Hk0 Hnd]. simpl foldl. rewrite IH by done.
  destruct (decide (k0 = k)) as [->|Hne].
  - rewrite (proj2 (has_false b k)) by done.
    rewrite (proj2 (has_true ((k, v0) :: b) k)) by (simpl; left).
    simpl. by rewrite String.eqb_refl, get_set_eq.
  - simpl getProp. apply String.eqb_neq in Hne as E. rewrite E.
    rewrite get_set_ne by done.
    destruct (hasProp b k) eqn:Hb.
    + by rewrite (proj2 (has_true ((k0, v0) :: b) k))
        by (simpl; right; by apply has_true).
    + rewrite (proj2 (has_false ((k0, v0) :: b) k)); [done |].
      apply not_elem_of_cons. split; [done | by apply has_false].
Qed.

Lemma foldl_set_fresh (f : string → json) (ks : list string) (acc : props) :
  NoDup ks → (∀ k, k ∈ ks → k ∉ keys acc) →
  foldl (λ acc k, setProp acc k (f k)) acc ks = acc ++ map (λ k, (k, f k)) ks.
Proof.
  revert acc. induction ks as [|k ks IH]; intros acc Hnd Hfresh; simpl.
  - by rewrite app_nil_r.
  - apply NoDup_cons in Hnd as [Hk Hnd].
    rewrite keys_set_fresh by (apply Hfresh; left).
    rewrite IH; [by rewrite <- app_assoc | done |].
    intros k' Hk'. unfold keys. rewrite fmap_app. simpl.
    intros [Hin|Hin%list_elem_of_singleton]%elem_of_app.
    + by apply (Hfresh k'); [right |].
    + by subst.
Qed.

#[local] Instance key_le_total : Total key_le.
Proof. intros a b. apply String.leb_total. Qed.

Lemma get_map_self (o : props) (ks : list string) (k : string) :
  k ∈ ks → getProp (map (λ k, (k, getProp o k)) ks) k = getProp o k.
Proof.
  induction ks as [|k0 ks IH]; simpl; [by intros ?%elem_of_nil |].
  intros Hin. destruct (String.eqb k0 k) eqn:E.
  - by apply String.eqb_eq in E as ->.
  - apply String.eqb_neq in E.
    apply elem_of_cons in Hin as [->|Hin]; [done | by apply IH].
Qed.

(** The rebuilt object: the same bindings, keys in sorted order. *)
Lemma sorted_object (o : props) :
  NoDup (keys o) →
  let o' := foldl (λ acc k, setProp acc k (getProp o k)) [] (sortedKeys o) in
  Sorted key_le (keys o') ∧ keys o' ≡ₚ keys o ∧ ∀ k, getProp o' k = getProp o k.
Proof.
  intros Hnd o'. subst o'.
  assert (Hperm : sortedKeys o ≡ₚ keys o) by apply merge_sort_Permutation.
  rewrite foldl_set_fresh; [| by rewrite Hperm | by intros ? _ ?%elem_of_nil].
  simpl. assert (Hkeys : keys (map (λ k, (k, getProp o k)) (sortedKeys o)) = sortedKeys o).
  { unfold keys. rewrite <- list_fmap_compose. apply list_fmap_id. }
  rewrite Hkeys. split_and!; [apply Sorted_merge_sort, _ | done |].
  intros k. destruct (decide (k ∈ keys o)) as [Hin|Hnin].
  - apply get_map_self. by rewrite Hperm.
  - rewrite (get_absent o) by done. apply get_absent. by rewrite Hkeys, Hperm.
Qed.

Lemma get_sortKey_other (m m' : props) (key k : string) :
  sortKey m key = Some m' → key ≠ k → getProp m' k = getProp m k.
Proof.
  unfold sortKey. intros H Hne.
  destruct (hasProp m key); [| by simplify_eq].
  destruct (getProp m key); simplify_eq; try done; by rewrite get_set_ne.
Qed.

Lemma sortKey_object (m : props) (key : string) (o : props) :
  getProp m key = JObj o → NoDup (keys o) →
  ∃ m' o', sortKey m key = Some m' ∧ getProp m' key = JObj o'
           ∧ Sorted key_le (keys o') ∧ keys o' ≡ₚ keys o ∧ ∀ k, getProp o' k = getProp o k.
Proof.
  intros Hget Hnd. unfold sortKey.
  assert (hasProp m key = true) as ->.
  { apply has_true. destruct (decide (key ∈ keys m)) as [|Hn]; [done |].
    by rewrite (get_absent m key Hn) in Hget. }
  rewrite Hget. eexists _, _. split; [done |]. rewrite get_set_eq.
  split; [done |]. by apply sorted_object.
Qed.

Lemma sortKey_undefined (m : props) (key : string) :
  getProp m key = JUndefined → sortKey m key = Some m.
Proof. unfold sortKey. intros ->. by destruct (hasProp m key). Qed.

End MergePackageJson.

Section MergePolicy.

Import Json.

Definition is_digit (c : ascii) : bool :=
  let n := nat_of_ascii c in (48 <=? n)%nat && (n <=? 57)%nat.

Fixpoint all_digits (s : string) : bool :=
  match s with
  | EmptyString => true
  | String c rest => is_digit c && all_digits rest
  end.

(** A property name for which assignment appends in insertion order: not
    an array index (a decimal numeral, which the runtime enumerates first
    and in numeric order) and not [__proto__] (which assignment does not
    store). *)
Definition plain_key (k : string) : bool :=
  negb (negb (String.eqb k "") && all_digits k) && negb (String.eqb k "__proto__").

(** A [scripts], [dependencies] or [devDependencies] entry: absent, or a
    map from plain names. *)
Definition dependency_map (v : json) : Prop :=
  match v with
  | JUndefined => True
  | JObj o => NoDup (keys o) ∧ Forall (λ k, plain_key k = true) (keys o)
  | _ => False
  end.

Definition sorted_fields : list string := ["scripts"; "dependencies"; "devDependencies"].

(** A well-formed package descriptor, as [JSON.parse] yields it. *)
Definition well_formed_descriptor (d : props) : Prop :=
  NoDup (keys d)
  ∧ Forall (λ k, plain_key k = true) (keys d)
  ∧ ∀ f, f ∈ sorted_fields → dependency_map (getProp d f).

(** What the sorting loop makes of one entry. *)
Definition sorted_copy (v v' : json) : Prop :=
  match v with
  | JObj o =>
      ∃ o', v' = JObj o' ∧ Sorted key_le (keys o') ∧ keys o' ≡ₚ keys o
            ∧ ∀ k, getProp o' k = getProp o k
  | _ => v' = v
  end.

Lemma NoDup_keys_setProp (o : props) (k : string) (v : json) :
  NoDup (keys o) → NoDup (keys (setProp o k v)).
Proof.
  intros Hnd. destruct (decide (k ∈ keys o)) as [Hin|Hnin].
  - by rewrite keys_set_present.
  - rewrite keys_set_fresh by done. unfold keys. rewrite fmap_app. simpl.
    apply NoDup_app. split_and!; [done | | apply NoDup_singleton].
    intros x Hx ->%list_elem_of_singleton. done.
Qed.

Lemma NoDup_keys_spread (a b : props) :
  NoDup (keys a) → NoDup (keys (spread a b)).
Proof.
  unfold spread. revert a. induction b as [|[k v] b IH]; intros a Hnd; [done |].
  simpl. by apply IH, NoDup_keys_setProp.
Qed.

Lemma NoDup_keys_sortKey (m m' : props) (key : string) :
  sortKey m key = Some m' → NoDup (keys m) → NoDup (keys m').
Proof.
  unfold sortKey. intros H Hnd. destruct (hasProp m key); [| by simplify_eq].
  destruct (getProp m key); simplify_eq; try done; by apply NoDup_keys_setProp.
Qed.

Lemma get_written (m : props) (k : string) :
  NoDup (keys m) → getProp (written m) k = getProp m k.
Proof.
  unfold written. induction m as [|[k0 x] m IH]; intros Hnd; [done |].
  apply NoDup_cons in Hnd as [Hk0 Hnd].
  rewrite filter_cons. simpl. destruct (String.eqb k0 k) eqn:E.
  - apply String.eqb_eq in E as ->.
    case_decide as Hx; simpl; [by rewrite String.eqb_refl |].
    rewrite IH by done. rewrite get_absent by done. by destruct x.
  - case_decide as Hx; simpl; [rewrite E |]; by apply IH.
Qed.

Lemma sortKey_dependency_map (m : props) (key : string) :
  dependency_map (getProp m key) →
  ∃ m', sortKey m key = Some m'
        ∧ (∀ k, key ≠ k → getProp m' k = getProp m k)
        ∧ sorted_copy (getProp m key) (getProp m' key).
Proof.
  intros Hdm. destruct (getProp m key) as [| | | | | |o] eqn:Hget; try done.
  - exists m. split; [by apply sortKey_undefined |]. split; [done |].
    by rewrite Hget.
  - destruct Hdm as [Hnd _].
    destruct (sortKey_object m key o Hget Hnd) as (m' & o' & Hs & Hg & Hrest).
    exists m'. split; [done |]. split.
    + intros k Hk. by eapply get_sortKey_other.
    + simpl. exists o'. by rewrite Hg.
Qed.

(** The entry that the shallow merge keeps for a key: the incoming one
    when the incoming document has the key, the existing one otherwise. *)
Definition incoming_wins (target extra : props) (k : string) : json :=
  if hasProp extra k then getProp extra k else getProp target k.

(** C3, as the code has it.  For two well-formed package descriptors the
    merge is shallow: the written document holds, under every top-level
    key, the incoming entry when the incoming document has that key and
    the existing entry otherwise; except [name], which is the existing
    name when that is non-empty and the incoming one otherwise; and the
    [scripts], [dependencies] and [devDependencies] entries that are kept
    are written with their keys in sorted order and their bindings as they
    were.  In particular the existing [{dependencies: {a: "1"}}] merged
    with the incoming [{dependencies: {b: "2"}}] is written as
    [{dependencies: {b: "2"}}]: the incoming map replaces the existing
    one. *)
Theorem C3_merge_is_shallow (target extra : props) :
  well_formed_descriptor target → well_formed_descriptor extra →
  ∃ merged,
    mergePackageJson (JObj target) (JObj extra) = Some merged
    ∧ (∀ k, k ≠ "name" → k ∉ sorted_fields →
            getProp (written merged) k = incoming_wins target extra k)
    ∧ getProp (written merged) "name"
      = (if truthy (getProp target "name") then getProp target "name"
         else getProp extra "name")
    ∧ (∀ f, f ∈ sorted_fields →
            sorted_copy (incoming_wins target extra f) (getProp (written merged) f))
    ∧ written <$> mergePackageJson
        (JObj [("dependencies", JObj [("a", JStr "1")])])
        (JObj [("dependencies", JObj [("b", JStr "2")])])
      = Some [("dependencies", JObj [("b", JStr "2")])].
Proof.
  intros (Hndt & _ & Hmt) (Hnde & _ & Hme).
  set (m0 := setProp (spread target extra) "name"
               (or_else (getProp target "name") (getProp extra "name"))).
  assert (Hnd0 : NoDup (keys m0)) by by apply NoDup_keys_setProp, NoDup_keys_spread.
  assert (Hm0 : ∀ k, k ≠ "name" → getProp m0 k = incoming_wins target extra k).
  { intros k Hk. unfold m0. rewrite get_set_ne by done. by apply get_spread. }
  assert (Hdm : ∀ f, f ∈ sorted_fields → dependency_map (incoming_wins target extra f)).
  { intros f Hf. unfold incoming_wins. destruct (hasProp extra f); auto. }
  assert (Hf1 : "scripts" ∈ sorted_fields) by (by left).
  assert (Hf2 : "dependencies" ∈ sorted_fields) by (by right; left).
  assert (Hf3 : "devDependencies" ∈ sorted_fields) by (by right; right; left).
  destruct (sortKey_dependency_map m0 "scripts") as (m1 & Hs1 & Ho1 & Hc1).
  { rewrite Hm0 by done. auto. }
  destruct (sortKey_dependency_map m1 "dependencies") as (m2 & Hs2 & Ho2 & Hc2).
  { rewrite Ho1, Hm0 by done. auto. }
  destruct (sortKey_dependency_map m2 "devDependencies") as (m3 & Hs3 & Ho3 & Hc3).
  { rewrite Ho2, Ho1, Hm0 by done. auto. }
  assert (Hnd3 : NoDup (keys m3)).
  { eapply NoDup_keys_sortKey; [exact Hs3 |].
    eapply NoDup_keys_sortKey; [exact Hs2 |].
    eapply NoDup_keys_sortKey; [exact Hs1 | exact Hnd0]. }
  exists m3. split_and!.
  - unfold mergePackageJson. fold m0. rewrite Hs1. simpl. rewrite Hs2. simpl. exact Hs3.
  - intros k Hk Hkf. rewrite get_written by done.
    assert ("scripts" ≠ k) by (intros <-; by apply Hkf).
    assert ("dependencies" ≠ k) by (intros <-; by apply Hkf).
    assert ("devDependencies" ≠ k) by (intros <-; by apply Hkf).
    by rewrite Ho3, Ho2, Ho1, Hm0.
  - rewrite get_written by done. rewrite Ho3, Ho2, Ho1 by done.
    unfold m0. by rewrite get_set_eq.
  - intros f Hf. rewrite get_written by done.
    unfold sorted_fields in Hf.
    apply elem_of_cons in Hf as [->|Hf]; [| apply elem_of_cons in Hf as [->|Hf];
      [| apply list_elem_of_singleton in Hf as ->]].
    + rewrite Ho3, Ho2 by done. by rewrite Hm0 in Hc1.
    + rewrite Ho3 by done. by rewrite Ho1, Hm0 in Hc2.
    + by rewrite Ho2, Ho1, Hm0 in Hc3.
  - vm_compute. reflexivity.
Qed.

Definition descriptor_a : props := [("dependencies", JObj [("a", JStr "1")])].
Definition descriptor_b : props := [("dependencies", JObj [("b", JStr "2")])].

Lemma descriptor_a_well_formed : well_formed_descriptor descriptor_a.
Proof.
  split_and!.
  - apply NoDup_singleton.
  - by repeat constructor.
  - intros f Hf. unfold sorted_fields in Hf.
    repeat (apply elem_of_cons in Hf as [->|Hf]); try by apply elem_of_nil in Hf.
    + exact I.
    + split; [apply NoDup_singleton | by repeat constructor].
    + exact I.
Defined.

Lemma descriptor_b_well_formed : well_formed_descriptor descriptor_b.
Proof.
  split_and!.
  - apply NoDup_singleton.
  - by repeat constructor.
  - intros f Hf. unfold sorted_fields in Hf.
    repeat (apply elem_of_cons in Hf as [->|Hf]); try by apply elem_of_nil in Hf.
    + exact I.
    + split; [apply NoDup_singleton | by repeat constructor].
    + exact I.
Defined.

Lemma C3_merge_is_shallow_witness :
  ∃ merged,
    mergePackageJson (JObj descriptor_a) (JObj descriptor_b) = Some merged
    ∧ getProp (written merged) "name" = JUndefined.
Proof.
  destruct (C3_merge_is_shallow descriptor_a descriptor_b
              descriptor_a_well_formed descriptor_b_well_formed)
    as (merged & Hm & _ & Hname & _).
  exists merged. split; [exact Hm | exact Hname].
Defined.

(** C3, as stated: the merge of the two example documents is not the
    union [{dependencies: {a: "1", b: "2"}}] of their dependency maps. *)
Lemma C3_example_is_not_deep_merged :
  written <$> mergePackageJson (JObj descriptor_a) (JObj descriptor_b)
  ≠ Some [("dependencies", JObj [("a", JStr "1"); ("b", JStr "2")])].
Proof. vm_compute. intros H. by simplify_eq. Qed.

End MergePolicy.

(** ** The file system *)

Module Fs.

(** An absolute path, as the list of its segments. *)
Abbreviation path := (list string) (only parsing).

(** A regular file: whether the process may read and write it, and its
    bytes. *)
Record file : Type := mkFile {
  readable : bool;
  writable : bool;
  data : string;
}.

(** A directory holds the names of its entries in the order [readdir]
    lists them. *)
Inductive node : Type :=
  | File (f : file)
  | Dir (entries : list string).

(** The file system: the node at every path that exists. *)
Abbreviation fs := (gmap (list string) node) (only parsing).

Definition parent (p : path) : path := removelast p.

Definition basename (p : path) : string := List.last p "".

(** [fs.existsSync(p)] *)
Definition existsSync (w : fs) (p : path) : bool :=
  match w !! p with Some _ => true | None => false end.

(** [fs.readdirSync(p)]; [None] when it throws. *)
Definition readdirSync (w : fs) (p : path) : option (list string) :=
  match w !! p with Some (Dir entries) => Some entries | _ => None end.

(** [fs.statSync(p)]: the node itself stands for its [Stats]. *)
Definition statSync (w : fs) (p : path) : option node := w !! p.

Definition isFile (n : node) : bool :=
  match n with File _ => true | Dir _ => false end.

Definition isDirectory (n : node) : bool :=
  match n with Dir _ => true | File _ => false end.

(** [fs.readFileSync(p, 'utf8')] *)
Definition readFileSync (w : fs) (p : path) : option string :=
  match w !! p with
  | Some (File f) => if readable f then Some (data f) else None
  | _ => None
  end.

Definition addEntry (name : string) (n : node) : node :=
  match n with
  | Dir entries => if bool_decide (name ∈ entries) then n else Dir (entries ++ [name])
  | File _ => n
  end.

Definition removeEntry (name : string) (n : node) : node :=
  match n with
  | Dir entries => Dir (filter (λ e, e ≠ name) entries)
  | File _ => n
  end.

(** A new node at [p], entered in the directory above it. *)
Definition create (w : fs) (p : path) (n : node) : fs :=
  <[p := n]> (alter (addEntry (basename p)) (parent p) w).

(** [fs.writeFileSync(p, text)]: an existing file must be writable, a new
    one needs its directory. *)
Definition writeFileSync (w : fs) (p : path) (text : string) : option fs :=
  match w !! p with
  | Some (File f) =>
      if writable f then Some (<[p := File (mkFile (readable f) true text)]> w) else None
  | Some (Dir _) => None
  | None =>
      match w !! parent p with
      | Some (Dir _) => Some (create w p (File (mkFile true true text)))
      | _ => None
      end
  end.

(** [fs.copyFileSync(src, dest)]: the bytes and the mode of [src]. *)
Definition copyFileSync (w : fs) (src dest : path) : option fs :=
  match w !! src with
  | Some (File f) =>
      if readable f then
        match w !! dest with
        | Some (File g) => if writable g then Some (<[dest := File f]> w) else None
        | Some (Dir _) => None
        | None =>
            match w !! parent dest with
            | Some (Dir _) => Some (create w dest (File f))
            | _ => None
            end
        end
      else None
  | _ => None
  end.

(** [fs.unlinkSync(p)] *)
Definition unlinkSync (w : fs) (p : path) : option fs :=
  match w !! p with
  | Some (File _) => Some (delete p (alter (removeEntry (basename p)) (parent p) w))
  | _ => None
  end.

(** [fs.mkdirSync(p, { recursive: true })]: every missing directory on
    the way to [p] is made; a file on the way makes it throw.  [done_] is
    the part of the path already passed. *)
Fixpoint mkdirFrom (w : fs) (done_ : path) (rest : list string) : option fs :=
  match rest with
  | [] => Some w
  | name :: rest' =>
      let p := done_ ++ [name] in
      match w !! p with
      | Some (Dir _) => mkdirFrom w p rest'
      | Some (File _) => None
      | None => mkdirFrom (create w p (Dir [])) p rest'
      end
  end.

Definition mkdirSync (w : fs) (p : path) : option fs := mkdirFrom w [] p.

(** [isEmptyDir] of [utils/common.ts]; [None] when [readdirSync] throws. *)
Definition isEmptyDir (w : fs) (p : path) : option bool :=
  if existsSync w p then
    files ← readdirSync w p;
    Some (bool_decide (files = []) || bool_decide (files = [".git"]))
  else Some true.

(** The segments of a relative path text (split at the slashes). *)
Fixpoint segmentsFrom (cur : string) (s : string) : list string :=
  match s with
  | EmptyString => [cur]
  | String c rest =>
      if Ascii.eqb c "/" then cur :: segmentsFrom EmptyString rest
      else segmentsFrom (cur +:+ String c EmptyString) rest
  end.

Definition segments (s : string) : list string := segmentsFrom EmptyString s.

(** The normalisation of [path.resolve]: empty and [.] segments fall
    away, [..] steps up. *)
Definition normalize (base : path) (segs : list string) : path :=
  foldl (λ acc seg,
           if String.eqb seg "" || String.eqb seg "." then acc
           else if String.eqb seg ".." then removelast acc
           else acc ++ [seg])
        base segs.

(** [path.resolve(base, name)] for an absolute [base]. *)
Definition resolve (base : path) (name : string) : path :=
  if JsString.startsWith name "/" then normalize [] (segments name)
  else normalize base (segments name).

End Fs.

Example resolve_plain : Fs.resolve ["out"] "a.txt" = ["out"; "a.txt"].
Proof. reflexivity. Qed.

Example resolve_nested : Fs.resolve ["out"] "com/example/../x" = ["out"; "com"; "x"].
Proof. reflexivity. Qed.

(** ** The binary detector *)

Module Detector.

Import Fs.

Definition zero : ascii := ascii_of_nat 0.

(** [Buffer.alloc(n)]: [n] zero bytes. *)
Definition Buffer_alloc (n : nat) : list ascii := replicate n zero.

(** [fs.promises.open(p, 'r')]: the file behind the descriptor; [None]
    when the file is missing or may not be read. *)
Definition open (w : fs) (p : path) : option node :=
  match w !! p with
  | Some (File f) => if readable f then Some (File f) else None
  | Some (Dir entries) => Some (Dir entries)
  | None => None
  end.

(** [fd.read(buffer, 0, length, 0)]: the bytes read are written at the
    start of the buffer, the rest of the buffer is as it was; reading a
    directory throws. *)
Definition read (fd : node) (buffer : list ascii) (len : nat)
    : option (nat * list ascii) :=
  match fd with
  | File f =>
      let bytes := take len (String.list_ascii_of_string (data f)) in
      Some (List.length bytes, bytes ++ drop (List.length bytes) buffer)
  | Dir _ => None
  end.

(** The loop [for (let i = 0; i < bytesRead; i++) if (buffer[i] === 0) return true]. *)
Fixpoint scan (buffer : list ascii) (i : nat) (remaining : nat) : bool :=
  match remaining with
  | O => false
  | S r =>
      match buffer !! i with
      | Some b => if Ascii.eqb b zero then true else scan buffer (S i) r
      | None => scan buffer (S i) r
      end
  end.

(** [isBinary]: every failure is caught and answered with [false]. *)
Definition isBinary (w : fs) (filePath : path) : bool :=
  let buffer := Buffer_alloc 512 in
  match open w filePath with
  | Some fd =>
      match read fd buffer 512 with
      | Some (bytesRead, buffer) => scan buffer 0 bytesRead
      | None => false
      end
  | None => false
  end.

End Detector.

Section DetectorFacts.

Import Fs Detector.

Lemma scan_true (buffer : list ascii) (n i : nat) :
  scan buffer i n = true ↔ ∃ j, (i ≤ j < i + n)%nat ∧ buffer !! j = Some zero.
Proof.
  revert i. induction n as [|n IH]; intros i; simpl.
  - split; [done | intros (j & ? & _); lia].
  - destruct (buffer !! i) as [b|] eqn:Hb.
    + destruct (Ascii.eqb b zero) eqn:Hz.
      * apply Ascii.eqb_eq in Hz as ->. split; [| done].
        intros _. exists i. split; [lia | done].
      * rewrite IH. apply Ascii.eqb_neq in Hz. split.
        -- intros (j & Hj & Hbj). exists j. split; [lia | done].
        -- intros (j & Hj & Hbj). exists j. split; [| done].
           destruct (decide (j = i)) as [->|]; [congruence | lia].
    + rewrite IH. split.
      * intros (j & Hj & Hbj). exists j. split; [lia | done].
      * intros (j & Hj & Hbj). exists j. split; [| done].
        destruct (decide (j = i)) as [->|]; [congruence | lia].
Qed.

Lemma isBinary_true_iff (w : gmap (list string) node) (filePath : list string) :
  isBinary w filePath = true ↔
    ∃ f i, w !! filePath = Some (File f) ∧ readable f = true
           ∧ (i < 512)%nat
           ∧ String.list_ascii_of_string (data f) !! i = Some zero.
Proof.
  unfold isBinary, open. destruct (w !! filePath) as [[f|entries]|] eqn:Hw.
  - destruct (readable f) eqn:Hr.
    + cbn [read]. rewrite scan_true.
      set (bytes := String.list_ascii_of_string (data f)).
      split.
      * intros (j & Hj & Hbj). rewrite length_take in Hj.
        exists f, j. split_and!; [done | done | lia |].
        rewrite lookup_app_l in Hbj by (rewrite length_take; lia).
        rewrite lookup_take_lt in Hbj by lia. done.
      * intros (f' & i & Hf & _ & Hi & Hz). simplify_eq.
        exists i. pose proof (lookup_lt_Some _ _ _ Hz) as Hlen.
        fold bytes in Hlen. rewrite length_take. split; [lia |].
        rewrite lookup_app_l by (rewrite length_take; lia).
        by rewrite lookup_take_lt by lia.
    + split; [done |]. intros (f' & i & Hf & Hr' & _). congruence.
  - cbn [read]. split; [done |]. intros (f' & i & Hf & _). congruence.
  - split; [done |]. intros (f' & i & Hf & _). congruence.
Qed.

(** C7.  The detector answers [true] exactly when the file can be opened
    for reading and one of its first 512 bytes is zero; bytes from the
    512th on are never looked at, and the zero bytes of the fresh buffer
    behind the bytes read do not count.  When the file cannot be opened,
    or cannot be read, the answer is [false]. *)
Theorem C7_isBinary_first_512_bytes (w : gmap (list string) node) (filePath : list string) :
  (isBinary w filePath = true ↔
     ∃ f i, w !! filePath = Some (File f) ∧ readable f = true
            ∧ (i < 512)%nat
            ∧ String.list_ascii_of_string (data f) !! i = Some zero)
  ∧ (open w filePath = None → isBinary w filePath = false)
  ∧ (∀ fd, open w filePath = Some fd → read fd (Buffer_alloc 512) 512 = None →
           isBinary w filePath = false).
Proof.
  split_and!.
  - apply isBinary_true_iff.
  - unfold isBinary. by intros ->.
  - unfold isBinary. by intros fd -> ->.
Qed.

End DetectorFacts.

Example isBinary_text :
  Detector.isBinary {[ ["a"] := Fs.File (Fs.mkFile true true "plain text") ]} ["a"] = false.
Proof. vm_compute. reflexivity. Qed.

Example isBinary_nul :
  Detector.isBinary
    {[ ["a"] := Fs.File (Fs.mkFile true true (String "P" (String Detector.zero "x"))) ]}
    ["a"] = true.
Proof. vm_compute. reflexivity. Qed.

Example isBinary_unreadable :
  Detector.isBinary
    {[ ["a"] := Fs.File (Fs.mkFile false true (String Detector.zero "")) ]}
    ["a"] = false.
Proof. vm_compute. reflexivity. Qed.

Lemma C7_isBinary_first_512_bytes_witness :
  Detector.isBinary
    {[ ["a"] := Fs.File (Fs.mkFile true true (String "P" (String Detector.zero "x"))) ]}
    ["a"] = true.
Proof.
  apply (proj1 (C7_isBinary_first_512_bytes _ _)).
  exists (Fs.mkFile true true (String "P" (String Detector.zero "x"))), 1%nat.
  split_and!; [by vm_compute | done | lia | done].
Defined.

(** ** The project builder: steps and their registration *)

Module Builder.

Export Fs.
Export Templater.

(** [variables?: (() => Promise<VariablesMap>) | VariablesMap]; a thunk is
    given by the map it resolves to. *)
Inductive Variables : Type :=
  | VariablesOf (m : VariablesMap)
  | VariablesThunk (m : VariablesMap).

(** Hooks are closures over the step type itself; a step names its hooks
    and the functions are looked up in an environment of hooks. *)
Definition hook_id : Type := nat.

(** [TemplateStep].  An absent [from] stands for both [undefined] and the
    empty string, which the builder does not tell apart. *)
Record TemplateStep : Type := mkStep {
  checkEmpty : option bool;
  from : option (list string);
  isMergePackageJson : option bool;
  override : option bool;
  packageName : option string;
  postHook : option hook_id;
  preHook : option hook_id;
  renameFiles : option (list (string * string));
  skipFiles : option (list string);
  to : option string;
  variables : option Variables;
  version : option Json.Version;
}.

(** [ProjectBuilderConfig] *)
Record ProjectBuilderConfig : Type := mkConfig {
  config_checkEmpty : option bool;
  config_override : option bool;
  config_packageName : option string;
  targetDir : list string;
  config_version : option Json.Version;
}.

(** [ProjectBuilder]: the configuration and the steps registered so far. *)
Record ProjectBuilder : Type := mkBuilder {
  config : ProjectBuilderConfig;
  steps : list TemplateStep;
}.

(** What is thrown: an [Error] of the builder with its message, or the
    error of a file system call. *)
Inductive error : Type :=
  | Error (message : string)
  | SystemError (call : string) (p : list string).

Inductive result (A : Type) : Type :=
  | Ok (a : A)
  | Throw (e : error).
Arguments Ok {A} a.
Arguments Throw {A} e.

(** [ProjectBuilder.create] *)
Definition create (config : ProjectBuilderConfig) : ProjectBuilder :=
  mkBuilder config [].

(** [addStep] *)
Definition addStep (this : ProjectBuilder) (step : TemplateStep) : result ProjectBuilder :=
  if negb (bool_decide (is_Some (from step)))
     && negb (bool_decide (is_Some (preHook step)))
     && negb (bool_decide (is_Some (postHook step)))
  then Throw (Error "Template step must have either a template path (from) or hooks (preHook/postHook)")
  else Ok (mkBuilder (config this) (steps this ++ [step])).

(** [addSteps] *)
Definition addSteps (this : ProjectBuilder) (new : list TemplateStep) : ProjectBuilder :=
  mkBuilder (config this) (steps this ++ new).

(** The steps a builder holds all have a source or a hook. *)
Definition valid_step (step : TemplateStep) : Prop :=
  is_Some (from step) ∨ is_Some (preHook step) ∨ is_Some (postHook step).

(** The step [{}]. *)
Definition empty_step : TemplateStep :=
  mkStep None None None None None None None None None None None None.

End Builder.

Section Registration.

Import Builder.

Lemma addStep_valid (this : ProjectBuilder) (step : TemplateStep) :
  valid_step step →
  addStep this step = Ok (mkBuilder (config this) (steps this ++ [step])).
Proof.
  unfold valid_step, addStep. intros [H|[H|H]];
    rewrite (bool_decide_eq_true_2 _ H); simpl; [done | |];
    rewrite ?andb_false_r; done.
Qed.

Lemma addStep_invalid (this : ProjectBuilder) (step : TemplateStep) :
  ¬ valid_step step →
  ∃ e, addStep this step = Throw e.
Proof.
  unfold valid_step, addStep. intros H.
  rewrite !bool_decide_eq_false_2 by tauto. simpl. by eexists.
Qed.

(** Through [addStep] alone only valid steps get into the builder. *)
Lemma addStep_keeps_valid (this this' : ProjectBuilder) (step : TemplateStep) :
  Forall valid_step (steps this) → addStep this step = Ok this' →
  Forall valid_step (steps this').
Proof.
  intros Hall. unfold addStep.
  destruct (from step) eqn:Hf, (preHook step) eqn:Hp, (postHook step) eqn:Hq;
    simpl; intros H; simplify_eq; simpl;
    apply Forall_app; (split; [done |]); apply Forall_singleton;
    unfold valid_step; rewrite Hf, Hp, Hq; eauto.
Qed.

(** C6 (code level).  [addStep] rejects the step [{}], but [addSteps]
    registers it without any check: after [addSteps([{}])] the builder
    holds a step with neither [from] nor a hook. *)
Theorem C6_addSteps_does_not_validate (cfg : ProjectBuilderConfig) :
  (∃ e, addStep (create cfg) empty_step = Throw e)
  ∧ steps (addSteps (create cfg) [empty_step]) = [empty_step]
  ∧ ¬ Forall valid_step (steps (addSteps (create cfg) [empty_step])).
Proof.
  split_and!.
  - by eexists.
  - done.
  - simpl. intros [H _]%Forall_cons.
    destruct H as [[? H]|[[? H]|[? H]]]; discriminate H.
Qed.

End Registration.

(** ** The inheritance resolver *)

Module Resolver.

Export Builder.

(** The messages of [defaultLogger] and [console], one constructor for
    each place that logs. *)
Inductive log_entry : Type :=
  | WarnCircular (templateDir : list string)
  | WarnInheritedNotFound (inheritedTemplatePath : list string)
  | WarnProcessFailed (templateDir : list string)
  | WarnNamesFailed (templateDir : list string)
  | WarnReadDirFailed (dir : list string)
  | WarnReplaceFailed (distFile : list string)
  | WarnCommandVariables
  | InfoFound (count : nat)
  | InfoExecuting (command : string)
  | InfoFinished (command : string)
  | InfoRemoved (commandFile : list string)
  | ErrorPrepare (commandFile : list string).

(** [file.startsWith('<inherit:') && file.endsWith('>')] *)
Definition isInheritFile (file : string) : bool :=
  JsString.startsWith file "<inherit:" && JsString.endsWith file ">".

(** [relativePath ? path.join(relativePath, file) : file] *)
Definition joinRelative (relativePath file : string) : string :=
  if String.eqb relativePath "" then file else relativePath +:+ "/" +:+ file.

Section Resolve.

(** The directory of the templates,
    [path.resolve(__dirname, '../../../templates')]. *)
Variable templatesDir : list string.

(** [templatePath] of [template.ts] *)
Definition templatePath (template : string) : list string :=
  templatesDir ++ ["template-" +:+ template].

Variable w : gmap (list string) node.
Variable variables : VariablesMap.

(** The step pushed for an inherited template. *)
Definition inheritedStep (inheritedTemplatePath : list string) (relativePath : string)
    : TemplateStep :=
  mkStep None (Some inheritedTemplatePath) None None None None None None None
         (Some relativePath) (Some (VariablesOf variables)) None.

(** The loop of [processInheritanceFiles] over the entries of
    [templateDir], with the recursive call [rec]; [steps] and [log] are
    the steps and the warnings so far.  A [statSync] that throws ends the
    loop in the [catch], which keeps the steps found before it. *)
Fixpoint inheritanceLoop
    (rec : list string → gset (list string) → string
           → option (list TemplateStep * list log_entry))
    (templateDir : list string) (processedTemplates : gset (list string))
    (relativePath : string) (files : list string)
    (steps : list TemplateStep) (log : list log_entry)
    : option (list TemplateStep * list log_entry) :=
  match files with
  | [] => Some (steps, log)
  | file :: files =>
      let filePath := templateDir ++ [file] in
      match statSync w filePath with
      | None => Some (steps, log ++ [WarnProcessFailed templateDir])
      | Some stat =>
          if isFile stat && isInheritFile file then
            let templateName := JsString.slice file 9 1 in
            if negb (String.eqb templateName "") then
              let inheritedTemplatePath := templatePath templateName in
              if existsSync w inheritedTemplatePath then
                nested ← rec inheritedTemplatePath processedTemplates relativePath;
                inheritanceLoop rec templateDir processedTemplates relativePath files
                  (steps ++ nested.1 ++ [inheritedStep inheritedTemplatePath relativePath])
                  (log ++ nested.2)
              else
                inheritanceLoop rec templateDir processedTemplates relativePath files
                  steps (log ++ [WarnInheritedNotFound inheritedTemplatePath])
            else
              inheritanceLoop rec templateDir processedTemplates relativePath files steps log
          else if isDirectory stat then
            let subRelativePath := joinRelative relativePath file in
            sub ← rec filePath processedTemplates subRelativePath;
            inheritanceLoop rec templateDir processedTemplates relativePath files
              (steps ++ sub.1) (log ++ sub.2)
          else
            inheritanceLoop rec templateDir processedTemplates relativePath files steps log
      end
  end.

(** The body of [processInheritanceFiles].  Every recursive call gets
    [new Set(processedTemplates)], a copy: the set is passed by value. *)
Definition processBody
    (rec : list string → gset (list string) → string
           → option (list TemplateStep * list log_entry))
    (templateDir : list string) (processedTemplates : gset (list string))
    (relativePath : string)
    : option (list TemplateStep * list log_entry) :=
  if bool_decide (templateDir ∈ processedTemplates) then
    Some ([], [WarnCircular templateDir])
  else
    let processedTemplates := processedTemplates ∪ {[templateDir]} in
    match readdirSync w templateDir with
    | None => Some ([], [WarnProcessFailed templateDir])
    | Some files =>
        inheritanceLoop rec templateDir processedTemplates relativePath files [] []
    end.

(** [processInheritanceFiles] with a bound on the depth of the recursion;
    [None] when the bound is reached. *)
Fixpoint processFuel (fuel : nat)
    (templateDir : list string) (processedTemplates : gset (list string))
    (relativePath : string)
    : option (list TemplateStep * list log_entry) :=
  match fuel with
  | O => None
  | S fuel => processBody (processFuel fuel) templateDir processedTemplates relativePath
  end.

(** [processInheritanceFiles(templateDir, variables)], as [loadTemplate]
    calls it: no template processed yet, at the root of the template.  The
    depth is bounded by the number of nodes of the file system. *)
Definition processInheritanceFiles (templateDir : list string)
    : option (list TemplateStep * list log_entry) :=
  processFuel (S (size w)) templateDir ∅ "".

(** The loop of [getInheritanceFileNames]. *)
Fixpoint namesLoop
    (rec : list string → string → option (list string * list log_entry))
    (templateDir : list string) (relativePath : string) (files : list string)
    (names : list string) (log : list log_entry)
    : option (list string * list log_entry) :=
  match files with
  | [] => Some (names, log)
  | file :: files =>
      let filePath := templateDir ++ [file] in
      match statSync w filePath with
      | None => Some (names, log ++ [WarnNamesFailed templateDir])
      | Some stat =>
          if isFile stat && isInheritFile file then
            namesLoop rec templateDir relativePath files
              (names ++ [joinRelative relativePath file]) log
          else if isDirectory stat then
            sub ← rec filePath (joinRelative relativePath file);
            namesLoop rec templateDir relativePath files (names ++ sub.1) (log ++ sub.2)
          else namesLoop rec templateDir relativePath files names log
      end
  end.

Fixpoint namesFuel (fuel : nat) (templateDir : list string) (relativePath : string)
    : option (list string * list log_entry) :=
  match fuel with
  | O => None
  | S fuel =>
      match readdirSync w templateDir with
      | None => Some ([], [WarnNamesFailed templateDir])
      | Some files => namesLoop (namesFuel fuel) templateDir relativePath files [] []
      end
  end.

(** [getInheritanceFileNames(templateDir)] *)
Definition getInheritanceFileNames (templateDir : list string)
    : option (list string * list log_entry) :=
  namesFuel (S (size w)) templateDir "".

End Resolve.

End Resolver.

(** ** Effects: the disk, the console and what is thrown *)

Module Effects.

Export Resolver.

(** A process started by [spawn]: the command, its arguments and its
    working directory. *)
Record spawned : Type := mkSpawned {
  cmd : string;
  args : list string;
  cwd : list string;
}.

(** The state the builder works on: the file system, the lines logged
    and the processes started, in order. *)
Record disk : Type := mkDisk {
  d_fs : gmap (list string) node;
  d_console : list log_entry;
  d_spawned : list spawned;
}.

(** A computation over a state [S]: it ends with a value or with a thrown
    error, in a new state; [None] only when a depth bound of the
    embedding is reached. *)
Definition M (S A : Type) : Type := S → option (result A * S).

(** A computation of the builder, over the disk. *)
Abbreviation Eff := (M disk).

Definition ret {S A : Type} (a : A) : M S A := λ d, Some (Ok a, d).

Definition throw {S A : Type} (e : error) : M S A := λ d, Some (Throw e, d).

Definition bind {S A B : Type} (m : M S A) (k : A → M S B) : M S B :=
  λ d, match m d with
       | Some (Ok a, d') => k a d'
       | Some (Throw e, d') => Some (Throw e, d')
       | None => None
       end.

(** [try { m } catch (e) { handler(e) }] *)
Definition try_catch {S A : Type} (m : M S A) (handler : error → M S A) : M S A :=
  λ d, match m d with
       | Some (Throw e, d') => handler e d'
       | r => r
       end.

#[global] Instance Eff_ret {S : Type} : MRet (M S) := @ret S.
#[global] Instance Eff_bind {S : Type} : MBind (M S) := λ A B k m, bind m k.

Definition log (entry : log_entry) : Eff unit :=
  λ d, Some (Ok (), mkDisk (d_fs d) (d_console d ++ [entry]) (d_spawned d)).

Definition logs (entries : list log_entry) : Eff unit :=
  λ d, Some (Ok (), mkDisk (d_fs d) (d_console d ++ entries) (d_spawned d)).

(** A read of the file system. *)
Definition inspect {A : Type} (f : gmap (list string) node → A) : Eff A :=
  λ d, Some (Ok (f (d_fs d)), d).

(** A file system call that may throw. *)
Definition sys {A : Type} (call : string) (p : list string)
    (f : gmap (list string) node → option A) : Eff A :=
  λ d, match f (d_fs d) with
       | Some a => Some (Ok a, d)
       | None => Some (Throw (SystemError call p), d)
       end.

(** A file system call that changes the file system, or throws. *)
Definition sys_update (call : string) (p : list string)
    (f : gmap (list string) node → option (gmap (list string) node)) : Eff unit :=
  λ d, match f (d_fs d) with
       | Some w' => Some (Ok (), mkDisk w' (d_console d) (d_spawned d))
       | None => Some (Throw (SystemError call p), d)
       end.

(** A scan of the embedding that may reach its depth bound. *)
Definition bounded {A : Type} (f : gmap (list string) node → option A) : Eff A :=
  λ d, match f (d_fs d) with
       | Some a => Some (Ok a, d)
       | None => None
       end.

(** [for (const x of xs) { body(x) }] *)
Fixpoint for_each {S A : Type} (xs : list A) (body : A → M S unit) : M S unit :=
  match xs with
  | [] => ret ()
  | x :: xs => bind (body x) (λ _, for_each xs body)
  end.

(** The text of a path. *)
Definition render (p : list string) : string := "/" +:+ JsString.join "/" p.

End Effects.

(** ** [loadTemplate] *)

Module Loader.

Export Effects.

(** The [options] of [loadTemplate]. *)
Record LoadOptions : Type := mkOptions {
  opt_renameFiles : option (list (string * string));
  opt_skipFiles : option (list string);
  opt_to : option string;
  opt_variables : option Variables;
}.

(** [options?.field] *)
Definition field {A : Type} (options : option LoadOptions) (f : LoadOptions → option A)
    : option A :=
  match options with Some o => f o | None => None end.

(** [typeof variables === 'function' ? await variables() : variables] *)
Definition resolveVariables (variables : option Variables) : VariablesMap :=
  match variables with
  | Some (VariablesOf m) => m
  | Some (VariablesThunk m) => m
  | None => []
  end.

(** [this.addStep(step)] inside a method: the builder is the state. *)
Definition addStepE (this : ProjectBuilder) (step : TemplateStep) : Eff ProjectBuilder :=
  match addStep this step with
  | Ok this' => ret this'
  | Throw e => throw e
  end.

Fixpoint addAll (this : ProjectBuilder) (new : list TemplateStep) : Eff ProjectBuilder :=
  match new with
  | [] => ret this
  | step :: new => this ← addStepE this step; addAll this new
  end.

Section Load.

Variable templatesDir : list string.

(** [loadTemplate(templateDir, options)] *)
Definition loadTemplate (this : ProjectBuilder) (templateDir : list string)
    (options : option LoadOptions) : Eff ProjectBuilder :=
  let renameFiles := field options opt_renameFiles in
  let skipFiles := default [] (field options opt_skipFiles) in
  let to := field options opt_to in
  let variables := default (VariablesOf []) (field options opt_variables) in
  exists_ ← inspect (λ w, existsSync w templateDir);
  if negb exists_ then
    throw (Error ("Template directory does not exist: " +:+ render templateDir))
  else
    let resolvedVariables := resolveVariables (Some variables) in
    inheritance ← bounded (λ w, processInheritanceFiles templatesDir w resolvedVariables templateDir);
    logs inheritance.2;;
    this ← addAll this inheritance.1;
    names ← bounded (λ w, getInheritanceFileNames w templateDir);
    logs names.2;;
    addStepE this
      (mkStep None (Some templateDir) None None None None None renameFiles
              (Some (skipFiles ++ names.1)) to (Some variables) None).

End Load.

End Loader.

(** ** Properties of the inheritance resolver *)

Section ResolverFacts.

Import Resolver.

Variable templatesDir : list string.
Variable w : gmap (list string) node.
Variable variables : VariablesMap.

#[local] Abbreviation loop := (inheritanceLoop templatesDir w variables).
#[local] Abbreviation body := (processBody templatesDir w variables).
#[local] Abbreviation process := (processFuel templatesDir w variables).
#[local] Abbreviation result_t := (option (list TemplateStep * list log_entry)).

Implicit Types rec : list string → gset (list string) → string → result_t.
Implicit Types dir target pA pB pC : list string.
Implicit Types V : gset (list string).
Implicit Types rel file marker mA mB mC : string.
Implicit Types files rest : list string.
Implicit Types steps : list TemplateStep.
Implicit Types log : list log_entry.

(** The loop ends as soon as every recursive call it makes does. *)
Lemma inheritanceLoop_total rec dir V rel files steps log :
  (∀ d r, is_Some (rec d V r)) →
  is_Some (loop rec dir V rel files steps log).
Proof.
  intros Hrec. revert steps log.
  induction files as [|file files IH]; intros steps log; [by eexists |].
  cbn [inheritanceLoop]. destruct (statSync w (dir ++ [file])) as [stat|]; [| by eexists].
  destruct (isFile stat && isInheritFile file).
  - destruct (negb _); [| apply IH].
    destruct (existsSync _ _); [| apply IH].
    destruct (Hrec (templatePath templatesDir (JsString.slice file 9 1)) rel) as [r ->].
    apply IH.
  - destruct (isDirectory stat); [| apply IH].
    destruct (Hrec (dir ++ [file]) (joinRelative rel file)) as [r ->]. apply IH.
Qed.

(** Termination: each call either finds its directory in the set of
    processed ones, or adds to that set a directory of the file system
    that was not in it; so the depth of the recursion is bounded by the
    number of nodes that are not processed yet. *)
Lemma processFuel_total (fuel : nat) dir (V : gset (list string)) rel :
  (size (dom w ∖ V) < fuel)%nat → is_Some (process fuel dir V rel).
Proof.
  revert dir V rel. induction fuel as [|fuel IH]; intros dir V rel Hsize; [lia |].
  cbn [processFuel]. unfold processBody.
  case_bool_decide as Hin; [by eexists |].
  unfold readdirSync. destruct (w !! dir) as [[f|entries]|] eqn:Hdir;
    [by eexists | | by eexists].
  apply inheritanceLoop_total. intros d r. apply IH.
  assert (Hsub : dom w ∖ (V ∪ {[dir]}) ⊂ dom w ∖ V).
  { apply strict_spec_alt. split; [set_solver |].
    intros Heq. assert (dir ∈ dom w ∖ V) as Hd.
    { apply elem_of_difference. split; [by apply elem_of_dom | done]. }
    rewrite <- Heq in Hd. set_solver. }
  apply subset_size in Hsub. lia.
Qed.

Lemma inheritanceLoop_mono rec rec' dir V rel files steps log r :
  (∀ d V' rl x, rec d V' rl = Some x → rec' d V' rl = Some x) →
  loop rec dir V rel files steps log = Some r →
  loop rec' dir V rel files steps log = Some r.
Proof.
  intros Hrec. revert steps log.
  induction files as [|file files IH]; intros steps log; [done |].
  cbn [inheritanceLoop]. destruct (statSync w (dir ++ [file])) as [stat|]; [| done].
  destruct (isFile stat && isInheritFile file).
  - destruct (negb _); [| apply IH].
    destruct (existsSync _ _); [| apply IH].
    destruct (rec (templatePath templatesDir (JsString.slice file 9 1)) V rel)
      as [x|] eqn:Hx; [| done].
    rewrite (Hrec _ _ _ _ Hx). apply IH.
  - destruct (isDirectory stat); [| apply IH].
    destruct (rec (dir ++ [file]) V (joinRelative rel file)) as [x|] eqn:Hx; [| done].
    rewrite (Hrec _ _ _ _ Hx). apply IH.
Qed.

(** A larger bound does not change a result. *)
Lemma processFuel_mono (n m : nat) dir V rel r :
  (n ≤ m)%nat → process n dir V rel = Some r → process m dir V rel = Some r.
Proof.
  revert m dir V rel r. induction n as [|n IH]; intros m dir V rel r Hle; [done |].
  destruct m as [|m]; [lia |]. cbn [processFuel]. unfold processBody.
  case_bool_decide; [done |]. destruct (readdirSync w dir); [| done].
  apply inheritanceLoop_mono. intros d V' rl x. apply IH. lia.
Qed.

Lemma processInheritanceFiles_total dir :
  is_Some (processInheritanceFiles templatesDir w variables dir).
Proof.
  apply processFuel_total. rewrite difference_empty_L, size_dom. lia.
Qed.

(** The result does not depend on the bound, once one is large enough. *)
Lemma processInheritanceFiles_fuel (n : nat) dir r :
  process n dir ∅ "" = Some r →
  processInheritanceFiles templatesDir w variables dir = Some r.
Proof.
  intros Hn. destruct (processInheritanceFiles_total dir) as [r' Hr'].
  unfold processInheritanceFiles in *.
  destruct (decide (n ≤ S (size w))%nat) as [Hle|Hgt].
  - by apply (processFuel_mono n).
  - assert (Hle : (S (size w) ≤ n)%nat) by lia.
    pose proof (processFuel_mono _ _ _ _ _ _ Hle Hr') as Hn'. congruence.
Qed.

(** [d] is [dir] or lies below it. *)
Definition inside dir (d : list string) : Prop := ∃ suffix, d = dir ++ suffix.

Lemma inside_refl dir : inside dir dir.
Proof. exists []. by rewrite app_nil_r. Qed.

Lemma inside_child dir file d : inside (dir ++ [file]) d → inside dir d.
Proof. intros [suffix ->]. exists (file :: suffix). by rewrite <- app_assoc. Qed.

Lemma not_inside_child dir file : ¬ inside (dir ++ [file]) dir.
Proof.
  intros [suffix H]. apply (f_equal length) in H.
  rewrite !length_app in H. simpl in H. lia.
Qed.

(** An entry that is a regular file and not an inheritance marker. *)
Definition plain_entry dir file : Prop :=
  ∃ f, w !! (dir ++ [file]) = Some (File f) ∧ isInheritFile file = false.

(** A directory tree, at most [depth] directories deep, that holds
    regular files and no inheritance marker at all. *)
Fixpoint marker_free (depth : nat) dir : Prop :=
  match depth with
  | O => False
  | S depth =>
      ∃ files, w !! dir = Some (Dir files)
               ∧ Forall (λ file, plain_entry dir file
                                 ∨ marker_free depth (dir ++ [file])) files
  end.

(** An entry that adds no ancestor: a regular file that is not a marker,
    or a directory tree without markers. *)
Definition quiet_entry (depth : nat) dir file : Prop :=
  plain_entry dir file ∨ marker_free depth (dir ++ [file]).

Lemma marker_free_is_dir depth dir :
  marker_free depth dir → ∃ files, w !! dir = Some (Dir files).
Proof. destruct depth; [done |]. intros (files & H & _). eauto. Qed.

Lemma inheritanceLoop_quiet rec (depth : nat) dir V rel files rest steps log :
  Forall (quiet_entry depth dir) files →
  (∀ file r, marker_free depth (dir ++ [file]) →
             rec (dir ++ [file]) V r = Some ([], [])) →
  loop rec dir V rel (files ++ rest) steps log = loop rec dir V rel rest steps log.
Proof.
  intros Hfiles Hrec. revert steps log.
  induction Hfiles as [|file files Hfile _ IH]; intros steps log; [done |].
  cbn [app inheritanceLoop]. unfold statSync.
  destruct Hfile as [(f & Hf & Hm)|Hfree].
  - rewrite Hf. cbn [isFile isDirectory]. rewrite Hm. cbn [andb]. apply IH.
  - destruct (marker_free_is_dir _ _ Hfree) as [es Hes]. rewrite Hes.
    cbn [isFile isDirectory andb]. rewrite (Hrec _ _ Hfree). simpl.
    rewrite !app_nil_r. apply IH.
Qed.

(** A tree without markers resolves to no ancestor, without a warning. *)
Lemma process_marker_free (depth : nat) dir V rel :
  marker_free depth dir → (∀ d, d ∈ V → ¬ inside dir d) →
  process depth dir V rel = Some ([], []).
Proof.
  revert dir V rel. induction depth as [|depth IH]; intros dir V rel Hfree HV; [done |].
  destruct Hfree as (files & Hdir & Hfiles).
  cbn [processFuel]. unfold processBody.
  rewrite bool_decide_eq_false_2 by (intros Hin; apply (HV _ Hin), inside_refl).
  unfold readdirSync. rewrite Hdir.
  rewrite <- (app_nil_r files). rewrite (inheritanceLoop_quiet _ depth); [done | done |].
  intros file r Hsub. apply IH; [done |].
  intros d [Hd| ->%elem_of_singleton]%elem_of_union.
  - intros Hin%inside_child. by apply (HV d).
  - apply not_inside_child.
Qed.

(** An entry that is an inheritance marker for the template at [target]. *)
Definition marker_entry dir file target : Prop :=
  (∃ f, w !! (dir ++ [file]) = Some (File f))
  ∧ isInheritFile file = true
  ∧ JsString.slice file 9 1 ≠ ""
  ∧ templatePath templatesDir (JsString.slice file 9 1) = target
  ∧ is_Some (w !! target).

Lemma inheritanceLoop_marker rec dir V rel file target rest steps log nested :
  marker_entry dir file target →
  rec target V rel = Some nested →
  loop rec dir V rel (file :: rest) steps log
  = loop rec dir V rel rest
      (steps ++ nested.1 ++ [inheritedStep variables target rel]) (log ++ nested.2).
Proof.
  intros ([f Hf] & Hm & Hname & Htarget & [n Hn]) Hrec.
  cbn [inheritanceLoop]. unfold statSync. rewrite Hf. cbn [isFile]. rewrite Hm. cbn [andb].
  apply String.eqb_neq in Hname. rewrite Hname. cbn [negb].
  rewrite Htarget. unfold existsSync. rewrite Hn. rewrite Hrec. done.
Qed.

(** A template directory whose only inheritance marker is [marker], at its
    root and for the template at [target], next to regular files and to
    directory trees without markers (at most [depth] deep). *)
Definition inherits_only (depth : nat) dir marker target : Prop :=
  ∃ before after,
    w !! dir = Some (Dir (before ++ marker :: after))
    ∧ Forall (quiet_entry depth dir) before ∧ Forall (quiet_entry depth dir) after
    ∧ marker_entry dir marker target.

(** A template directory without any marker. *)
Definition inherits_nothing (depth : nat) dir : Prop := marker_free depth dir.

Lemma process_only (depth k : nat) dir V rel marker target nested :
  inherits_only depth dir marker target →
  (∀ d, d ∈ V → ¬ inside dir d) →
  process k target (V ∪ {[dir]}) rel = Some nested →
  process (S (depth `max` k)) dir V rel
  = Some (nested.1 ++ [inheritedStep variables target rel], nested.2).
Proof.
  intros (before & after & Hdir & Hb & Ha & Hm) HV Hrec.
  cbn [processFuel]. unfold processBody.
  rewrite bool_decide_eq_false_2 by (intros Hin; apply (HV _ Hin), inside_refl).
  unfold readdirSync. rewrite Hdir.
  assert (Hquiet : ∀ file r, marker_free depth (dir ++ [file]) →
            process (depth `max` k) (dir ++ [file]) (V ∪ {[dir]}) r = Some ([], [])).
  { intros file r Hsub. apply (processFuel_mono depth); [lia |].
    apply process_marker_free; [done |].
    intros d [Hd| ->%elem_of_singleton]%elem_of_union.
    - intros Hin%inside_child. by apply (HV d).
    - apply not_inside_child. }
  rewrite (inheritanceLoop_quiet _ depth) by done.
  rewrite (inheritanceLoop_marker _ _ _ _ _ _ _ _ _ nested Hm).
  - rewrite <- (app_nil_r after). by rewrite (inheritanceLoop_quiet _ depth).
  - apply (processFuel_mono k); [lia | done].
Qed.

Lemma process_circular (k : nat) dir V rel :
  dir ∈ V → process (S k) dir V rel = Some ([], [WarnCircular dir]).
Proof. intros Hin. cbn [processFuel]. unfold processBody. by rewrite bool_decide_eq_true_2. Qed.

(** The chain A inherits B inherits C. *)
Lemma process_chain (nA nB nC : nat) pA pB pC mB mC :
  inherits_only nA pA mB pB → inherits_only nB pB mC pC → inherits_nothing nC pC →
  ¬ inside pB pA → ¬ inside pC pA → ¬ inside pC pB →
  processInheritanceFiles templatesDir w variables pA
  = Some ([inheritedStep variables pC ""; inheritedStep variables pB ""], []).
Proof.
  intros HA HB HC Hba Hca Hcb.
  assert (H1 : process nC pC (∅ ∪ {[pA]} ∪ {[pB]}) "" = Some ([], [])).
  { apply process_marker_free; [exact HC |]. intros d Hd.
    assert (d = pA ∨ d = pB) as [-> | ->] by set_solver; done. }
  pose proof (process_only nB nC pB (∅ ∪ {[pA]}) "" mC pC ([], []) HB) as H2.
  cbn [fst snd app] in H2.
  pose proof (process_only nA _ pA ∅ "" mB pB _ HA ltac:(set_solver)
                (H2 ltac:(intros d Hd; assert (d = pA) as -> by set_solver; done) H1))
    as H3.
  by apply processInheritanceFiles_fuel in H3.
Qed.

(** The cycle A inherits B inherits A. *)
Lemma process_cycle (nA nB : nat) pA pB mA mB :
  inherits_only nA pA mB pB → inherits_only nB pB mA pA → ¬ inside pB pA →
  processInheritanceFiles templatesDir w variables pA
  = Some ([inheritedStep variables pA ""; inheritedStep variables pB ""],
          [WarnCircular pA]).
Proof.
  intros HA HB Hba.
  assert (H1 : process 1 pA (∅ ∪ {[pA]} ∪ {[pB]}) "" = Some ([], [WarnCircular pA])).
  { apply process_circular. set_solver. }
  pose proof (process_only nB 1 pB (∅ ∪ {[pA]}) "" mA pA _ HB
                ltac:(intros d Hd; assert (d = pA) as -> by set_solver; done) H1) as H2.
  cbn [fst snd app] in H2.
  pose proof (process_only nA _ pA ∅ "" mB pB _ HA ltac:(set_solver) H2) as H3.
  by apply processInheritanceFiles_fuel in H3.
Qed.

End ResolverFacts.

Section LoaderFacts.

Import Loader.

Variable templatesDir : list string.
Variable w : gmap (list string) node.

Implicit Types rec : list string → string → option (list string * list log_entry).
Implicit Types dir target : list string.
Implicit Types rel file marker : string.
Implicit Types files rest names : list string.
Implicit Types log : list log_entry.

(** The nodes of the file system that lie deeper than [dir]. *)
Definition deeper dir : gset (list string) :=
  filter (λ p, (length dir < length p)%nat) (dom w).

Lemma namesLoop_total rec dir rel files names log :
  (∀ file r, is_Some (w !! (dir ++ [file])) → is_Some (rec (dir ++ [file]) r)) →
  is_Some (namesLoop w rec dir rel files names log).
Proof.
  intros Hrec. revert names log.
  induction files as [|file files IH]; intros names log; [by eexists |].
  cbn [namesLoop]. unfold statSync.
  destruct (w !! (dir ++ [file])) as [stat|] eqn:Hstat; [| by eexists].
  destruct (isFile stat && isInheritFile file); [apply IH |].
  destruct (isDirectory stat); [| apply IH].
  destruct (Hrec file (joinRelative rel file)) as [r ->]; [by rewrite Hstat |]. apply IH.
Qed.

(** The scan only descends, so its depth is bounded by the number of
    nodes below the directory it starts from. *)
Lemma namesFuel_total (fuel : nat) dir rel :
  (size (deeper dir) < fuel)%nat → is_Some (namesFuel w fuel dir rel).
Proof.
  revert dir rel. induction fuel as [|fuel IH]; intros dir rel Hsize; [lia |].
  cbn [namesFuel]. destruct (readdirSync w dir); [| by eexists].
  apply namesLoop_total. intros file r Hfile. apply IH.
  assert (Hsub : deeper (dir ++ [file]) ⊂ deeper dir).
  { apply strict_spec_alt. split.
    - intros p [Hp Hin]%elem_of_filter. apply elem_of_filter. split; [| done].
      rewrite length_app in Hp. simpl in Hp. lia.
    - intros Heq. assert (dir ++ [file] ∈ deeper dir) as Hd.
      { apply elem_of_filter. split; [| by apply elem_of_dom].
        rewrite length_app. simpl. lia. }
      rewrite <- Heq in Hd. apply elem_of_filter in Hd as [Hd _]. lia. }
  apply subset_size in Hsub. lia.
Qed.

Lemma namesLoop_mono rec rec' dir rel files names log r :
  (∀ d rl x, rec d rl = Some x → rec' d rl = Some x) →
  namesLoop w rec dir rel files names log = Some r →
  namesLoop w rec' dir rel files names log = Some r.
Proof.
  intros Hrec. revert names log.
  induction files as [|file files IH]; intros names log; [done |].
  cbn [namesLoop]. destruct (statSync w (dir ++ [file])) as [stat|]; [| done].
  destruct (isFile stat && isInheritFile file); [apply IH |].
  destruct (isDirectory stat); [| apply IH].
  destruct (rec (dir ++ [file]) (joinRelative rel file)) as [x|] eqn:Hx; [| done].
  rewrite (Hrec _ _ _ Hx). apply IH.
Qed.

Lemma namesFuel_mono (n m : nat) dir rel r :
  (n ≤ m)%nat → namesFuel w n dir rel = Some r → namesFuel w m dir rel = Some r.
Proof.
  revert m dir rel r. induction n as [|n IH]; intros m dir rel r Hle; [done |].
  destruct m as [|m]; [lia |]. cbn [namesFuel].
  destruct (readdirSync w dir); [| done].
  apply namesLoop_mono. intros d rl x. apply IH. lia.
Qed.

Lemma getInheritanceFileNames_total dir :
  is_Some (getInheritanceFileNames w dir).
Proof.
  apply namesFuel_total.
  assert (Hsub : deeper dir ⊆ dom w) by (intros p [_ Hp]%elem_of_filter; exact Hp).
  apply subseteq_size in Hsub. rewrite size_dom in Hsub. lia.
Qed.

Lemma getInheritanceFileNames_fuel (n : nat) dir r :
  namesFuel w n dir "" = Some r → getInheritanceFileNames w dir = Some r.
Proof.
  intros Hn. destruct (getInheritanceFileNames_total dir) as [r' Hr'].
  unfold getInheritanceFileNames in *.
  destruct (decide (n ≤ S (size w))%nat) as [Hle|Hgt].
  - by apply (namesFuel_mono n).
  - assert (Hle : (S (size w) ≤ n)%nat) by lia.
    pose proof (namesFuel_mono _ _ _ _ _ Hle Hr') as Hn'. congruence.
Qed.

Lemma namesLoop_quiet rec (depth : nat) dir rel files rest names log :
  Forall (quiet_entry w depth dir) files →
  (∀ file r, marker_free w depth (dir ++ [file]) → rec (dir ++ [file]) r = Some ([], [])) →
  namesLoop w rec dir rel (files ++ rest) names log
  = namesLoop w rec dir rel rest names log.
Proof.
  intros Hfiles Hrec. revert names log.
  induction Hfiles as [|file files Hfile _ IH]; intros names log; [done |].
  cbn [app namesLoop]. unfold statSync.
  destruct Hfile as [(f & Hf & Hm)|Hfree].
  - rewrite Hf. cbn [isFile isDirectory]. rewrite Hm. cbn [andb]. apply IH.
  - destruct (marker_free_is_dir _ _ _ Hfree) as [es Hes]. rewrite Hes.
    cbn [isFile isDirectory andb]. rewrite (Hrec _ _ Hfree). simpl.
    rewrite !app_nil_r. apply IH.
Qed.

Lemma namesFuel_marker_free (depth : nat) dir rel :
  marker_free w depth dir → namesFuel w depth dir rel = Some ([], []).
Proof.
  revert dir rel. induction depth as [|depth IH]; intros dir rel Hfree; [done |].
  destruct Hfree as (files & Hdir & Hfiles).
  cbn [namesFuel]. unfold readdirSync. rewrite Hdir.
  rewrite <- (app_nil_r files). rewrite (namesLoop_quiet _ depth); [done | done |].
  intros file r Hsub. by apply IH.
Qed.

Lemma getInheritanceFileNames_only (depth : nat) dir marker target :
  inherits_only templatesDir w depth dir marker target →
  getInheritanceFileNames w dir = Some ([marker], []).
Proof.
  intros (before & after & Hdir & Hb & Ha & ([f Hf] & Hm & _)).
  apply (getInheritanceFileNames_fuel (S depth)).
  cbn [namesFuel]. unfold readdirSync. rewrite Hdir.
  rewrite (namesLoop_quiet _ depth) by (done || (intros; by apply namesFuel_marker_free)).
  cbn [namesLoop]. unfold statSync. rewrite Hf. cbn [isFile]. rewrite Hm. cbn [andb].
  rewrite <- (app_nil_r after).
  by rewrite (namesLoop_quiet _ depth) by (done || (intros; by apply namesFuel_marker_free)).
Qed.

(** The step [loadTemplate] registers for the template itself. *)
Definition ownStep (templateDir : list string) (options : option LoadOptions)
    (markers : list string) : TemplateStep :=
  mkStep None (Some templateDir) None None None None None
         (field options opt_renameFiles)
         (Some (default [] (field options opt_skipFiles) ++ markers))
         (field options opt_to)
         (Some (default (VariablesOf []) (field options opt_variables)))
         None.

Lemma addAll_from (this : ProjectBuilder) (new : list TemplateStep) (d : disk) :
  Forall (λ step, is_Some (from step)) new →
  addAll this new d = Some (Ok (mkBuilder (config this) (steps this ++ new)), d).
Proof.
  revert this. induction new as [|step new IH]; intros this Hall.
  - simpl. rewrite app_nil_r. by destruct this.
  - apply Forall_cons in Hall as [Hstep Hall]. cbn [addAll].
    unfold mbind, Eff_bind, bind, addStepE.
    rewrite addStep_valid by (by left). unfold ret.
    rewrite IH by done. simpl. by rewrite <- app_assoc.
Qed.

Lemma loadTemplate_appends (this : ProjectBuilder) (templateDir : list string)
    (options : option LoadOptions) (d : disk)
    (ancestors : list TemplateStep) (markers : list string) :
  d_fs d = w → is_Some (w !! templateDir) →
  processInheritanceFiles templatesDir w
    (resolveVariables (Some (default (VariablesOf []) (field options opt_variables))))
    templateDir = Some (ancestors, []) →
  Forall (λ step, is_Some (from step)) ancestors →
  getInheritanceFileNames w templateDir = Some (markers, []) →
  loadTemplate templatesDir this templateDir options d
  = Some (Ok (mkBuilder (config this)
                (steps this ++ ancestors ++ [ownStep templateDir options markers])), d).
Proof.
  intros Hfs [n Hn] Hproc Hfrom Hnames.
  destruct d as [fs console spawned]. simpl in Hfs. subst fs.
  unfold loadTemplate.
  unfold mbind, Eff_bind, bind, inspect, bounded, logs, existsSync. cbn [d_fs d_console d_spawned].
  rewrite Hn. cbn [negb d_fs]. rewrite Hproc. cbn [fst snd d_fs d_console d_spawned].
  rewrite app_nil_r. rewrite addAll_from by done. cbn [d_fs d_console d_spawned].
  rewrite Hnames. cbn [fst snd d_fs d_console d_spawned]. rewrite app_nil_r.
  unfold addStepE. rewrite addStep_valid by (by left). unfold ret. simpl.
  by rewrite <- app_assoc.
Qed.

End LoaderFacts.

(** C1.  For a template A whose only marker inherits B, with B's only
    marker inheriting C and C inheriting nothing (three directories none
    of which lies inside another), resolving A yields the ancestor steps deepest first,
    [C; B], and [loadTemplate] registers them in this order followed by
    the step of A itself, so that the copy of a more derived template
    comes later and may overwrite that of its ancestors. *)
Theorem C1_chain_is_deepest_first
    (templatesDir : list string) (w : gmap (list string) Fs.node)
    (nA nB nC : nat) (pA pB pC : list string) (mB mC : string)
    (this : Builder.ProjectBuilder) (options : option Loader.LoadOptions)
    (d : Effects.disk) :
  let variables :=
    Loader.resolveVariables
      (Some (default (Builder.VariablesOf []) (Loader.field options Loader.opt_variables))) in
  inherits_only templatesDir w nA pA mB pB →
  inherits_only templatesDir w nB pB mC pC →
  inherits_nothing w nC pC →
  ¬ inside pB pA → ¬ inside pC pA → ¬ inside pC pB →
  Effects.d_fs d = w →
  Resolver.processInheritanceFiles templatesDir w variables pA
  = Some ([Resolver.inheritedStep variables pC ""; Resolver.inheritedStep variables pB ""], [])
  ∧ Loader.loadTemplate templatesDir this pA options d
    = Some (Builder.Ok
              (Builder.mkBuilder (Builder.config this)
                 (Builder.steps this
                  ++ [Resolver.inheritedStep variables pC "";
                      Resolver.inheritedStep variables pB "";
                      ownStep pA options [mB]])), d).
Proof.
  intros variables HA HB HC Hab Hac Hbc Hfs.
  pose proof (process_chain templatesDir w variables nA nB nC pA pB pC mB mC
                HA HB HC Hab Hac Hbc) as Hchain.
  split; [exact Hchain |].
  apply (loadTemplate_appends templatesDir w this pA options d
           [Resolver.inheritedStep variables pC ""; Resolver.inheritedStep variables pB ""]
           [mB]); try done.
  - destruct HA as (? & ? & -> & _). by eexists.
  - repeat constructor; by eexists.
  - by eapply getInheritanceFileNames_only.
Qed.

(** *** Three concrete template sets *)

Module Samples.

Import Loader.

Definition templates : list string := ["templates"].

Definition emptyFile : node := File (mkFile true true "").

Definition textFile (text : string) : node := File (mkFile true true text).

Definition template (name : string) : list string := ["templates"; "template-" +:+ name].

(** specific inherits common, common inherits base *)
Definition chain_fs : gmap (list string) node :=
  list_to_map
    [ (template "specific", Dir ["src"; "<inherit:common>"; "specific-file.js"]);
      (template "specific" ++ ["src"], Dir ["index.js"]);
      (template "specific" ++ ["src"; "index.js"], textFile "index");
      (template "specific" ++ ["<inherit:common>"], emptyFile);
      (template "specific" ++ ["specific-file.js"], textFile "specific");
      (template "common", Dir ["common-file.js"; "<inherit:base>"]);
      (template "common" ++ ["common-file.js"], textFile "common");
      (template "common" ++ ["<inherit:base>"], emptyFile);
      (template "base", Dir ["base-file.js"]);
      (template "base" ++ ["base-file.js"], textFile "base") ].

(** a inherits b, b inherits a *)
Definition cycle_fs : gmap (list string) node :=
  list_to_map
    [ (template "a", Dir ["<inherit:b>"; "file-a.txt"]);
      (template "a" ++ ["<inherit:b>"], emptyFile);
      (template "a" ++ ["file-a.txt"], textFile "File from template A");
      (template "b", Dir ["<inherit:a>"; "file-b.txt"]);
      (template "b" ++ ["<inherit:a>"], emptyFile);
      (template "b" ++ ["file-b.txt"], textFile "File from template B") ].

(** app inherits base below its directory src *)
Definition nested_fs : gmap (list string) node :=
  list_to_map
    [ (template "app", Dir ["README.md"; "src"]);
      (template "app" ++ ["README.md"], textFile "# {{name}}");
      (template "app" ++ ["src"], Dir ["<inherit:base>"; "main.ts"]);
      (template "app" ++ ["src"; "<inherit:base>"], emptyFile);
      (template "app" ++ ["src"; "main.ts"], textFile "main");
      (template "base", Dir ["base.ts"]);
      (template "base" ++ ["base.ts"], textFile "base") ].

(** a inherits b and c, which both inherit d *)
Definition diamond_fs : gmap (list string) node :=
  list_to_map
    [ (template "a", Dir ["<inherit:b>"; "<inherit:c>"]);
      (template "a" ++ ["<inherit:b>"], emptyFile);
      (template "a" ++ ["<inherit:c>"], emptyFile);
      (template "b", Dir ["<inherit:d>"]);
      (template "b" ++ ["<inherit:d>"], emptyFile);
      (template "c", Dir ["<inherit:d>"]);
      (template "c" ++ ["<inherit:d>"], emptyFile);
      (template "d", Dir ["d.txt"]);
      (template "d" ++ ["d.txt"], textFile "d") ].

End Samples.

Section SampleFacts.

Import Loader Samples.

Ltac concrete :=
  repeat match goal with
         | |- _ ∧ _ => split
         | |- Forall _ [] => constructor
         | |- Forall _ (_ :: _) => constructor
         | |- quiet_entry _ _ _ _ => left
         | |- plain_entry _ _ _ => eexists
         | |- ∃ _, _ => eexists
         | |- is_Some _ => eexists
         | |- _ ≠ _ => discriminate
         | |- _ = _ => vm_compute; reflexivity
         end.

Lemma chain_specific :
  inherits_only templates chain_fs 1 (template "specific") "<inherit:common>" (template "common").
Proof.
  exists ["src"], ["specific-file.js"]. unfold marker_entry. split_and!.
  - by vm_compute.
  - constructor; [| constructor]. right. exists ["index.js"].
    split; [by vm_compute |]. constructor; [| constructor]. left. concrete.
  - concrete.
  - concrete.
  - concrete.
  - concrete.
  - concrete.
  - concrete.
Defined.

(** A marker below the root of a template anchors the ancestor at the
    directory of the marker. *)
Example nested_marker_anchors_at_its_directory :
  Resolver.processInheritanceFiles templates nested_fs [] (template "app")
  = Some ([Resolver.inheritedStep [] (template "base") "src"], []).
Proof. vm_compute. reflexivity. Qed.

Lemma chain_common :
  inherits_only templates chain_fs 0 (template "common") "<inherit:base>" (template "base").
Proof. exists ["common-file.js"], []. unfold marker_entry. concrete. Defined.

Lemma chain_base : inherits_nothing chain_fs 1 (template "base").
Proof. exists ["base-file.js"]. split; [by vm_compute |]. repeat constructor. concrete. Defined.

Lemma cycle_a :
  inherits_only templates cycle_fs 0 (template "a") "<inherit:b>" (template "b").
Proof. exists [], ["file-a.txt"]. unfold marker_entry. concrete. Defined.

Lemma cycle_b :
  inherits_only templates cycle_fs 0 (template "b") "<inherit:a>" (template "a").
Proof. exists [], ["file-b.txt"]. unfold marker_entry. concrete. Defined.

End SampleFacts.

Lemma C1_chain_is_deepest_first_witness :
  Resolver.processInheritanceFiles Samples.templates Samples.chain_fs [] (Samples.template "specific")
  = Some ([Resolver.inheritedStep [] (Samples.template "base") "";
           Resolver.inheritedStep [] (Samples.template "common") ""], []).
Proof.
  refine (proj1 (C1_chain_is_deepest_first Samples.templates Samples.chain_fs 1 0 1
                   (Samples.template "specific") (Samples.template "common")
                   (Samples.template "base") "<inherit:common>" "<inherit:base>"
                   (Builder.create (Builder.mkConfig None None None ["out"] None)) None
                   (Effects.mkDisk Samples.chain_fs [] [])
                   chain_specific chain_common chain_base _ _ _ _)).
  - intros [suffix H]. discriminate H.
  - intros [suffix H]. discriminate H.
  - intros [suffix H]. discriminate H.
  - reflexivity.
Defined.

(** C2.  Resolution terminates on every file system, from every
    directory.  When A and B inherit each other, resolving A enters B
    once, finds A already in the chain there, warns once and gives up that
    branch only: the ancestor steps are [A; B], so B appears exactly once.
    The set of processed templates is passed by value, so a template that
    two sibling branches inherit is resolved in both, without a warning:
    with a inheriting b and c, which both inherit d, the steps are
    [d; b; d; c]. *)
Theorem C2_resolution_terminates_and_prunes
    (templatesDir : list string) (w : gmap (list string) Fs.node)
    (variables : Templater.VariablesMap) :
  (∀ dir, is_Some (Resolver.processInheritanceFiles templatesDir w variables dir))
  ∧ (∀ nA nB pA pB mA mB,
       inherits_only templatesDir w nA pA mB pB →
       inherits_only templatesDir w nB pB mA pA →
       ¬ inside pB pA →
       ∃ steps,
         Resolver.processInheritanceFiles templatesDir w variables pA
         = Some (steps, [Resolver.WarnCircular pA])
         ∧ steps = [Resolver.inheritedStep variables pA "";
                    Resolver.inheritedStep variables pB ""]
         ∧ length (filter (λ s, Builder.from s = Some pB) steps) = 1%nat)
  ∧ Resolver.processInheritanceFiles Samples.templates Samples.diamond_fs variables
      (Samples.template "a")
    = Some ([Resolver.inheritedStep variables (Samples.template "d") "";
             Resolver.inheritedStep variables (Samples.template "b") "";
             Resolver.inheritedStep variables (Samples.template "d") "";
             Resolver.inheritedStep variables (Samples.template "c") ""], []).
Proof.
  split_and!.
  - apply processInheritanceFiles_total.
  - intros nA nB pA pB mA mB HA HB Hba. eexists. split_and!.
    + by eapply process_cycle.
    + done.
    + assert (pA ≠ pB) by (intros ->; apply Hba, inside_refl).
      rewrite filter_cons_False by (simpl; congruence).
      by rewrite filter_cons_True.
  - vm_compute. reflexivity.
Qed.

Lemma C2_resolution_terminates_and_prunes_witness :
  Resolver.processInheritanceFiles Samples.templates Samples.cycle_fs [] (Samples.template "a")
  = Some ([Resolver.inheritedStep [] (Samples.template "a") "";
           Resolver.inheritedStep [] (Samples.template "b") ""],
          [Resolver.WarnCircular (Samples.template "a")]).
Proof.
  destruct (proj1 (proj2 (C2_resolution_terminates_and_prunes
                            Samples.templates Samples.cycle_fs []))
              0%nat 0%nat (Samples.template "a") (Samples.template "b")
              "<inherit:a>" "<inherit:b>"
              cycle_a cycle_b ltac:(intros [suffix H]; discriminate H))
    as (steps & Hres & -> & _).
  exact Hres.
Defined.

(** ** The copy engine *)

Module Engine.

Export Loader.

(** The answer to the prompt about a target directory that is not empty;
    [AnswerCancel] is the interrupted prompt, on which the process exits. *)
Inductive answer : Type := AnswerYes | AnswerNo | AnswerCancel.

(** The arguments of [copyTemplateWithVariables], defaults filled in. *)
Record CopyArgs : Type := mkCopy {
  c_checkEmpty : bool;
  c_from : list string;
  c_isMergePackageJson : bool;
  c_override : bool;
  c_packageName : option string;
  c_relativePath : string;
  c_renameFiles : list (string * string);
  c_skipFiles : list string;
  c_to : list string;
  c_variables : VariablesMap;
  c_version : option Json.Version;
}.

(** [{ gitignore: '.gitignore' }] *)
Definition defaultRenameFiles : list (string * string) := [("gitignore", ".gitignore")].

(** [renameFiles[file] || file], for the own properties of [renameFiles]. *)
Definition renamed (renameFiles : list (string * string)) (file : string) : string :=
  match list_find (λ kv, kv.1 = file) renameFiles with
  | Some (_, (_, name)) => if String.eqb name "" then file else name
  | None => file
  end.

(** A value of the embedding that the runtime computes without fail. *)
Definition expect {A : Type} (what : string) (o : option A) : Eff A :=
  match o with
  | Some a => ret a
  | None => throw (Error what)
  end.

Section Copy.

(** The runtime's [JSON.parse] and [JSON.stringify(_, null, 2)], and the
    user at the prompt. *)
Variable JSON_parse : string → option Json.json.
Variable JSON_stringify : Json.json → string.
Variable select : list string → answer.

(** [FileTemplater.replaceInFile] *)
Definition replaceInFile (filePath : list string) (variables : VariablesMap) : Eff string :=
  fileContent ←
    try_catch (sys "readFile" filePath (λ w, readFileSync w filePath))
              (λ _, throw (Error ("Failed to read template file " +:+ render filePath)));
  if bool_decide (variables = []) then ret fileContent
  else expect "SyntaxError" (substitute fileContent variables).

(** [FileTemplater.replaceInFileAndUpdate] *)
Definition replaceInFileAndUpdate (filePath : list string) (variables : VariablesMap)
    : Eff unit :=
  modifiedContent ← replaceInFile filePath variables;
  try_catch (sys_update "writeFile" filePath (λ w, writeFileSync w filePath modifiedContent))
            (λ _, throw (Error ("Failed to write updated content to file "
                                +:+ render filePath))).

(** [mergePackageJson(targetPackage, extraPackage)] on the two files. *)
Definition mergePackageJsonFile (targetPackage extraPackage : list string) : Eff unit :=
  exists_ ← inspect (λ w, existsSync w targetPackage);
  if negb exists_ then ret ()
  else
    targetText ← sys "readFile" targetPackage (λ w, readFileSync w targetPackage);
    targetJson ← expect "SyntaxError" (JSON_parse targetText);
    extraText ← sys "readFile" extraPackage (λ w, readFileSync w extraPackage);
    extraJson ← expect "SyntaxError" (JSON_parse extraText);
    mergedJson ← expect "TypeError" (Json.mergePackageJson targetJson extraJson);
    sys_update "writeFile" targetPackage
      (λ w, writeFileSync w targetPackage
              (JSON_stringify (Json.JObj mergedJson) +:+ String (ascii_of_nat 10) EmptyString)).

(** [updatePackageJson(pkgJsonPath, version, name)] on the file. *)
Definition updatePackageJsonFile (pkgJsonPath : list string)
    (version : option Json.Version) (name : option string) : Eff unit :=
  content ← sys "readFile" pkgJsonPath (λ w, readFileSync w pkgJsonPath);
  text ← expect "SyntaxError or TypeError"
           (Json.updatePackageJson JSON_parse JSON_stringify content version name);
  sys_update "writeFile" pkgJsonPath (λ w, writeFileSync w pkgJsonPath text).

(** The emptiness check at the head of [copyTemplateWithVariables]. *)
Definition checkTarget (args : CopyArgs) : Eff unit :=
  if c_checkEmpty args && negb (c_override args) then
    exists_ ← inspect (λ w, existsSync w (c_to args));
    if (exists_ : bool) then
      empty ← sys "readdir" (c_to args) (λ w, isEmptyDir w (c_to args));
      if negb empty then
        match select (c_to args) with
        | AnswerYes => ret ()
        | AnswerNo => throw (Error "Operation cancelled by user")
        | AnswerCancel => throw (Error "process.exit(0)")
        end
      else ret ()
    else ret ()
  else ret ().

(** The part of the loop body for a file that is neither a directory nor
    [package.json]: the bytes are copied, and the content is substituted
    when there are variables and the copy is not binary; a failure of the
    substitution is logged and goes no further. *)
Definition copyOtherFile (args : CopyArgs) (srcFile distFile : list string) : Eff unit :=
  sys_update "copyFile" distFile (λ w, copyFileSync w srcFile distFile);;
  if negb (bool_decide (c_variables args = [])) then
    isBinaryFile ← inspect (λ w, Detector.isBinary w distFile);
    if negb isBinaryFile then
      try_catch (replaceInFileAndUpdate distFile (c_variables args))
                (λ _, log (WarnReplaceFailed distFile))
    else ret ()
  else ret ().

(** The body of the loop over [fs.readdirSync(from)], with the recursive
    call [rec] for a directory. *)
Definition copyEntry (rec : CopyArgs → Eff unit) (args : CopyArgs) (file : string)
    : Eff unit :=
  let allSkipFiles := ["dist"; "node_modules"] ++ c_skipFiles args in
  let currentRelativePath := joinRelative (c_relativePath args) file in
  if bool_decide (file ∈ allSkipFiles) || bool_decide (currentRelativePath ∈ allSkipFiles)
     || isInheritFile file
  then ret ()
  else
    let srcFile := c_from args ++ [file] in
    distFileName ← expect "SyntaxError"
                     (substitute (renamed (c_renameFiles args) file) (c_variables args));
    let distFile := resolve (c_to args) distFileName in
    let distDir := parent distFile in
    (if negb (bool_decide (distDir = c_to args))
     then sys_update "mkdir" distDir (λ w, mkdirSync w distDir)
     else ret ());;
    stat ← sys "stat" srcFile (λ w, statSync w srcFile);
    if isDirectory stat then
      rec (mkCopy false srcFile false false None currentRelativePath
                  (c_renameFiles args) (c_skipFiles args) distFile (c_variables args) None)
    else if String.eqb file "package.json" then
      let targetPackage := resolve (c_to args) "package.json" in
      exists_ ← inspect (λ w, existsSync w targetPackage);
      if c_isMergePackageJson args && exists_ then mergePackageJsonFile targetPackage srcFile
      else
        sys_update "copyFile" distFile (λ w, copyFileSync w srcFile distFile);;
        updatePackageJsonFile distFile (c_version args) (c_packageName args)
    else copyOtherFile args srcFile distFile.

(** [copyTemplateWithVariables] with a bound on the depth of the
    directories ([None] when it is reached). *)
Fixpoint copyFuel (fuel : nat) (args : CopyArgs) : Eff unit :=
  match fuel with
  | O => λ _, None
  | S fuel =>
      exists_ ← inspect (λ w, existsSync w (c_from args));
      if negb exists_ then
        throw (Error ("Source template directory does not exist: " +:+ render (c_from args)))
      else
        checkTarget args;;
        sys_update "mkdir" (c_to args) (λ w, mkdirSync w (c_to args));;
        files ← sys "readdir" (c_from args) (λ w, readdirSync w (c_from args));
        for_each files (copyEntry (copyFuel fuel) args)
  end.

End Copy.

End Engine.

Section CopyFacts.

Import Engine.

Variable JSON_parse : string → option Json.json.
Variable JSON_stringify : Json.json → string.
Variable select : list string → answer.

Lemma copyFileSync_result (w w' : gmap (list string) node) (src dest : list string) (f : file) :
  copyFileSync w src dest = Some w' → w !! src = Some (File f) →
  readable f = true ∧ w' !! dest = Some (File f).
Proof.
  unfold copyFileSync. intros H Hsrc. rewrite Hsrc in H.
  destruct (readable f); [| done]. split; [done |].
  destruct (w !! dest) as [[g|es]|]; [| done |].
  - destruct (writable g); [| done]. simplify_eq. apply lookup_insert_eq.
  - destruct (w !! parent dest) as [[?|?]|]; try done. simplify_eq.
    unfold Fs.create. apply lookup_insert_eq.
Qed.

Lemma isBinary_file (w : gmap (list string) node) (p : list string) (f : file) :
  w !! p = Some (File f) → readable f = true →
  Detector.isBinary w p
  = Detector.scan (take 512 (String.list_ascii_of_string (data f))
                   ++ drop (length (take 512 (String.list_ascii_of_string (data f))))
                        (Detector.Buffer_alloc 512))
                  0 (length (take 512 (String.list_ascii_of_string (data f)))).
Proof. intros Hp Hr. unfold Detector.isBinary, Detector.open. by rewrite Hp, Hr. Qed.

(** The directories of the destination: [to] itself was made at the head
    of the copy, a deeper one is made before the entry is copied. *)
Definition destinationReady (w : gmap (list string) node) (to distFile : list string)
    : option (gmap (list string) node) :=
  if bool_decide (parent distFile = to) then Some w else mkdirSync w (parent distFile).

(** The conditions under which the loop body takes the branch of an
    ordinary file, and the copy of the bytes succeeds: [w1] is the file
    system once the directory of the destination is there, [w2] the one
    after [copyFileSync]. *)
Record ordinary_copy (args : CopyArgs) (file : string) (d : disk) (f : Fs.file)
    (distFileName : string) (w1 w2 : gmap (list string) node) : Prop := {
  oc_not_skipped : file ∉ ["dist"; "node_modules"] ++ c_skipFiles args;
  oc_path_not_skipped :
    joinRelative (c_relativePath args) file ∉ ["dist"; "node_modules"] ++ c_skipFiles args;
  oc_not_marker : isInheritFile file = false;
  oc_not_descriptor : file ≠ "package.json";
  oc_name : substitute (renamed (c_renameFiles args) file) (c_variables args)
            = Some distFileName;
  oc_ready : destinationReady (d_fs d) (c_to args) (resolve (c_to args) distFileName)
             = Some w1;
  oc_source : w1 !! (c_from args ++ [file]) = Some (File f);
  oc_copied : copyFileSync w1 (c_from args ++ [file]) (resolve (c_to args) distFileName)
              = Some w2;
}.

Lemma copyEntry_ordinary (rec : CopyArgs → Eff unit) args file d f distFileName w1 w2 :
  ordinary_copy args file d f distFileName w1 w2 →
  copyEntry JSON_parse JSON_stringify rec args file d
  = (if negb (bool_decide (c_variables args = [])) then
       if negb (Detector.isBinary w2 (resolve (c_to args) distFileName)) then
         try_catch (replaceInFileAndUpdate (resolve (c_to args) distFileName)
                      (c_variables args))
                   (λ _, log (WarnReplaceFailed (resolve (c_to args) distFileName)))
       else ret ()
     else ret ()) (mkDisk w2 (d_console d) (d_spawned d)).
Proof.
  intros [Hs1 Hs2 Hm Hpkg Hname Hready Hsrc Hcopy].
  destruct d as [w console spawned]. cbn [d_fs d_console d_spawned] in *.
  unfold copyEntry.
  rewrite (bool_decide_eq_false_2 _ Hs1), (bool_decide_eq_false_2 _ Hs2), Hm.
  cbn [orb]. rewrite Hname. unfold destinationReady in Hready.
  unfold mbind, Eff_bind, bind, expect, ret. cbn beta iota.
  assert (Hstat : statSync w1 (c_from args ++ [file]) = Some (File f)) by exact Hsrc.
  apply String.eqb_neq in Hpkg.
  destruct (bool_decide (parent (resolve (c_to args) distFileName) = c_to args));
    cbn [negb].
  - injection Hready as <-. unfold sys, sys_update, inspect.
    cbn [d_fs d_console d_spawned].
    rewrite Hstat. cbn [isDirectory]. rewrite Hpkg.
    unfold copyOtherFile, mbind, Eff_bind, bind, sys_update, inspect.
    cbn [d_fs d_console d_spawned]. rewrite Hcopy.
    destruct (negb (bool_decide (c_variables args = []))); [| done].
    cbn [d_fs]. by destruct (negb (Detector.isBinary w2 _)).
  - unfold sys, sys_update, inspect. cbn [d_fs d_console d_spawned].
    rewrite Hready. cbn [d_fs d_console d_spawned].
    rewrite Hstat. cbn [isDirectory]. rewrite Hpkg.
    unfold copyOtherFile, mbind, Eff_bind, bind, sys_update, inspect.
    cbn [d_fs d_console d_spawned]. rewrite Hcopy.
    destruct (negb (bool_decide (c_variables args = []))); [| done].
    cbn [d_fs]. by destruct (negb (Detector.isBinary w2 _)).
Qed.

End CopyFacts.

Section CopyClaims.

Import Engine.

Variable JSON_parse : string → option Json.json.
Variable JSON_stringify : Json.json → string.

Lemma replaceInFileAndUpdate_read_only (w : gmap (list string) node) (p : list string)
    (f : file) (variables : VariablesMap) console spawned :
  w !! p = Some (File f) → readable f = true → writable f = false →
  ∃ e, replaceInFileAndUpdate p variables (mkDisk w console spawned)
       = Some (Throw e, mkDisk w console spawned).
Proof.
  intros Hp Hr Hw. unfold replaceInFileAndUpdate, replaceInFile.
  unfold mbind, Eff_bind, bind, try_catch, sys, sys_update, expect, ret, throw.
  cbn [d_fs d_console d_spawned]. unfold readFileSync. rewrite Hp, Hr.
  assert (Hwrite : ∀ text, writeFileSync w p text = None).
  { intros text. unfold writeFileSync. by rewrite Hp, Hw. }
  case_bool_decide.
  - cbn [d_fs]. rewrite Hwrite. by eexists.
  - destruct (substitute_total variables (data f)) as [text ->].
    cbn [d_fs]. rewrite Hwrite. by eexists.
Qed.


(** The substitution does throw on a copy that cannot be written to (the
    copy has the mode of its source): the bytes then stay as copied. *)
Lemma copy_of_read_only_file_stays
    (rec : CopyArgs → Eff unit)
    (args : CopyArgs) (file : string) (rest : list string) (d : disk) (f : Fs.file)
    (distFileName : string) (w1 w2 : gmap (list string) node) :
  let distFile := resolve (c_to args) distFileName in
  ordinary_copy args file d f distFileName w1 w2 →
  (∀ i, (i < 512)%nat →
        String.list_ascii_of_string (data f) !! i ≠ Some Detector.zero) →
  c_variables args ≠ [] → writable f = false →
  for_each (file :: rest) (copyEntry JSON_parse JSON_stringify rec args) d
  = for_each rest (copyEntry JSON_parse JSON_stringify rec args)
      (mkDisk w2 (d_console d ++ [WarnReplaceFailed distFile]) (d_spawned d))
  ∧ w2 !! distFile = Some (File f).
Proof.
  intros distFile Hoc Hnz Hvars Hw.
  pose proof (copyEntry_ordinary JSON_parse JSON_stringify rec _ _ _ _ _ _ _ Hoc) as Hentry.
  destruct (copyFileSync_result _ _ _ _ _ (oc_copied _ _ _ _ _ _ _ Hoc)
              (oc_source _ _ _ _ _ _ _ Hoc)) as [Hr Hdest].
  fold distFile in Hentry, Hdest. split; [| exact Hdest].
  cbn [for_each]. unfold bind at 1. rewrite Hentry.
  rewrite (bool_decide_eq_false_2 _ Hvars). cbn [negb].
  assert (Detector.isBinary w2 distFile = false) as ->.
  { destruct (Detector.isBinary w2 distFile) eqn:Hb; [| done].
    apply isBinary_true_iff in Hb as (f' & i & Hf' & _ & Hi & Hz).
    rewrite Hdest in Hf'. injection Hf' as <-. by destruct (Hnz i Hi). }
  cbn [negb]. unfold try_catch.
  destruct (replaceInFileAndUpdate_read_only w2 distFile f (c_variables args)
              (d_console d) (d_spawned d) Hdest Hr Hw) as [e ->].
  reflexivity.
Qed.

End CopyClaims.

Module CopySample.

Import Engine.







(** A template tree with a read-only file, a renamed file, a directory
    with a placeholder in a file name, a marker and a skipped directory. *)
Definition tree_fs : gmap (list string) node :=
  list_to_map
    [ (["t"], Dir ["a.txt"; "b.txt"; "gitignore"; "sub"; "<inherit:x>"; "node_modules"]);
      (["t"; "a.txt"], File (mkFile true false "hello {{name}}"));
      (["t"; "b.txt"], File (mkFile true true "bye {{name}}"));
      (["t"; "gitignore"], File (mkFile true true "dist"));
      (["t"; "<inherit:x>"], File (mkFile true true ""));
      (["t"; "node_modules"], Dir []);
      (["t"; "sub"], Dir ["{{name}}.md"]);
      (["t"; "sub"; "{{name}}.md"], File (mkFile true true "# {{name}}")) ].

Definition tree_args : CopyArgs :=
  mkCopy false ["t"] false false None "" defaultRenameFiles [] ["out"]
         [("name", VStr "demo")] None.

(** What a run leaves: its result, the console, and the nodes at some
    paths of the target. *)
Definition observe (run : option (result unit * disk)) (paths : list (list string))
    : option (result unit * list log_entry * list (option node)) :=
  match run with
  | Some (r, d) => Some (r, d_console d, map (λ p, d_fs d !! p) paths)
  | None => None
  end.

Example copy_tree :
  observe (copyFuel (λ _, None) (λ _, EmptyString) (λ _, AnswerYes) 3 tree_args
             (mkDisk tree_fs [] []))
          [ ["out"]; ["out"; "a.txt"]; ["out"; "b.txt"]; ["out"; ".gitignore"];
            ["out"; "sub"; "demo.md"]; ["out"; "<inherit:x>"]; ["out"; "node_modules"] ]
  = Some (Ok (), [WarnReplaceFailed ["out"; "a.txt"]],
          [ Some (Dir ["a.txt"; "b.txt"; ".gitignore"; "sub"]);
            Some (File (mkFile true false "hello {{name}}"));
            Some (File (mkFile true true "bye demo"));
            Some (File (mkFile true true "dist"));
            Some (File (mkFile true true "# demo"));
            None; None ]).
Proof. vm_compute. reflexivity. Qed.

End CopySample.


(** ** Prepare commands and the step pipeline *)

Module Pipeline.

Export Engine.

(** How a spawned process ends: the [close] event with its exit code
    ([None] when a signal ended it), or the [error] event when it could
    not be started. *)
Inductive ending : Type :=
  | Closed (code : option Z)
  | SpawnFailed.

#[global] Instance ending_eq_dec : EqDecision ending.
Proof. solve_decision. Defined.

(** What the builder calls from [executeStepWithHooks], in order. *)
Inductive call : Type :=
  | CallHook (id : hook_id) (step : TemplateStep)
  | CallExecuteStep (step : TemplateStep) (isFirstStep : bool).

(** The pipeline runs over the disk and the record of its calls; only
    the pipeline itself writes the record. *)
Abbreviation Run := (M (disk * list call)).

Definition lift {A : Type} (m : Eff A) : Run A :=
  λ s, match m s.1 with
       | Some (r, d') => Some (r, (d', s.2))
       | None => None
       end.

Definition record (c : call) : Run unit := λ s, Some (Ok (), (s.1, s.2 ++ [c])).

(** [s.split(sep)] for a separator of one character. *)
Fixpoint splitFrom (sep : ascii) (cur : string) (s : string) : list string :=
  match s with
  | EmptyString => [cur]
  | String c rest =>
      if Ascii.eqb c sep then cur :: splitFrom sep EmptyString rest
      else splitFrom sep (cur +:+ String c EmptyString) rest
  end.

Definition split (s : string) (sep : ascii) : list string := splitFrom sep EmptyString s.

Section Pipeline.

Variable JSON_parse : string → option Json.json.
Variable JSON_stringify : Json.json → string.
Variable select : list string → answer.

(** The shell: how the process of a command line ends. *)
Variable shell : string → list string → list string → ending.

(** The hooks of the steps. *)
Variable hooks : hook_id → ProjectBuilderConfig → TemplateStep → Eff (option (list TemplateStep)).

(** [executeCommand(command, cwd)] *)
Definition executeCommand (command : string) (cwd : list string) : Eff unit :=
  let parts := split command " " in
  let cmd := hd EmptyString parts in
  let args := tl parts in
  (λ d, Some (Ok (), mkDisk (d_fs d) (d_console d)
                       (d_spawned d ++ [mkSpawned cmd args cwd])));;
  match shell cmd args cwd with
  | Closed (Some 0%Z) => log (InfoFinished command)
  | Closed _ => throw (Error ("Command exited with code: " +:+ command))
  | SpawnFailed => throw (Error ("Failed to execute command " +:+ command))
  end.

(** The loop of [findPrepareCommandFiles]. *)
Fixpoint findLoop (w : gmap (list string) node)
    (rec : list string → option (list (list string) * list log_entry))
    (dir : list string) (files : list string)
    (found : list (list string)) (log : list log_entry)
    : option (list (list string) * list log_entry) :=
  match files with
  | [] => Some (found, log)
  | file :: files =>
      let filePath := dir ++ [file] in
      match statSync w filePath with
      | None => Some (found, log ++ [WarnReadDirFailed dir])
      | Some stat =>
          if isFile stat && String.eqb file "<prepare_command>" then
            findLoop w rec dir files (found ++ [filePath]) log
          else if isDirectory stat then
            sub ← rec filePath;
            findLoop w rec dir files (found ++ sub.1) (log ++ sub.2)
          else findLoop w rec dir files found log
      end
  end.

Fixpoint findFuel (w : gmap (list string) node) (fuel : nat) (dir : list string)
    : option (list (list string) * list log_entry) :=
  match fuel with
  | O => None
  | S fuel =>
      if negb (existsSync w dir) then Some ([], [])
      else
        match readdirSync w dir with
        | None => Some ([], [WarnReadDirFailed dir])
        | Some files => findLoop w (findFuel w fuel) dir files [] []
        end
  end.

(** [findPrepareCommandFiles(dir)] *)
Definition findPrepareCommandFiles (w : gmap (list string) node) (dir : list string)
    : option (list (list string) * list log_entry) :=
  findFuel w (S (size w)) dir.

(** The variables put into the text of a command; a failure would be
    logged and the text left as it is. *)
Definition commandText (content : string) (variables : VariablesMap) : Eff string :=
  if negb (bool_decide (variables = [])) then
    match substitute content variables with
    | Some text => ret text
    | None => log WarnCommandVariables;; ret content
    end
  else ret content.

(** The body of the loop of [executePrepareCommands] for one marker. *)
Definition prepareOne (variables : VariablesMap) (commandFile : list string) : Eff unit :=
  try_catch
    (content ← sys "readFile" commandFile (λ w, readFileSync w commandFile);
     commandContent ← commandText (JsString.trim content) variables;
     (if negb (String.eqb commandContent "") then
        log (InfoExecuting commandContent);;
        executeCommand commandContent (parent commandFile)
      else ret ());;
     sys_update "unlink" commandFile (λ w, unlinkSync w commandFile);;
     log (InfoRemoved commandFile))
    (λ e, log (ErrorPrepare commandFile);; throw e).

(** [executePrepareCommands(targetDir, variables)] *)
Definition executePrepareCommands (targetDir : list string) (variables : VariablesMap)
    : Eff unit :=
  found ← bounded (λ w, findPrepareCommandFiles w targetDir);
  logs found.2;;
  if bool_decide (found.1 = []) then ret ()
  else
    log (InfoFound (length found.1));;
    for_each found.1 (prepareOne variables).

(** [copyTemplateWithVariables(mergedConfig)]; the depth of the source
    is bounded by the number of nodes of the file system. *)
Definition copyTemplateWithVariables (args : CopyArgs) : Eff unit :=
  λ d, copyFuel JSON_parse JSON_stringify select (S (size (d_fs d))) args d.

(** [step.to ? path.resolve(this.config.targetDir, step.to) : this.config.targetDir] *)
Definition targetPathOf (config : ProjectBuilderConfig) (step : TemplateStep) : list string :=
  match to step with
  | Some to => if String.eqb to "" then targetDir config else resolve (targetDir config) to
  | None => targetDir config
  end.

Definition orElse {A : Type} (a b : option A) : option A :=
  match a with Some _ => a | None => b end.

(** [executeStep(step, isFirstStep)] *)
Definition executeStep (config : ProjectBuilderConfig)
    (step : TemplateStep) (isFirstStep : bool) : Eff unit :=
  match from step with
  | None => ret ()
  | Some from =>
      let targetPath := targetPathOf config step in
      let resolvedVariables := resolveVariables (variables step) in
      let mergedConfig :=
        mkCopy (if isFirstStep then false else default false (checkEmpty step))
               from
               (default false (isMergePackageJson step))
               (default false (orElse (override step) (config_override config)))
               (orElse (packageName step) (config_packageName config))
               EmptyString
               (default defaultRenameFiles (renameFiles step))
               (default [] (skipFiles step))
               targetPath
               resolvedVariables
               (orElse (version step) (config_version config)) in
      copyTemplateWithVariables mergedConfig;;
      executePrepareCommands targetPath resolvedVariables
  end.

(** A hook is called; [additionalSteps && additionalSteps.length > 0]
    makes of [undefined] an empty list. *)
Definition runHook (config : ProjectBuilderConfig) (hook : option hook_id)
    (step : TemplateStep) : Run (list TemplateStep) :=
  match hook with
  | None => ret []
  | Some id =>
      record (CallHook id step);;
      additionalSteps ← lift (hooks id config step);
      ret (default [] additionalSteps)
  end.

(** The additional steps of a hook are executed at once, by
    [executeStep]; [outputPaths] collects their targets. *)
Fixpoint executeAdditional (config : ProjectBuilderConfig)
    (executeStep : TemplateStep → bool → Eff unit) (collectOutputPaths : bool)
    (additionalSteps : list TemplateStep) (outputPaths : list (list string))
    : Run (list (list string)) :=
  match additionalSteps with
  | [] => ret outputPaths
  | additionalStep :: rest =>
      record (CallExecuteStep additionalStep false);;
      lift (executeStep additionalStep false);;
      executeAdditional config executeStep collectOutputPaths rest
        (if collectOutputPaths && bool_decide (is_Some (from additionalStep))
         then outputPaths ++ [targetPathOf config additionalStep]
         else outputPaths)
  end.

(** [executeStepWithHooks(step, isFirstStep, { collectOutputPaths, executeStep })] *)
Definition executeStepWithHooks (config : ProjectBuilderConfig)
    (executeStep : TemplateStep → bool → Eff unit) (collectOutputPaths : bool)
    (step : TemplateStep) (isFirstStep : bool) : Run (list (list string)) :=
  additionalSteps ← runHook config (preHook step) step;
  outputPaths ← executeAdditional config executeStep collectOutputPaths additionalSteps [];
  outputPaths ←
    (if bool_decide (is_Some (from step)) then
       record (CallExecuteStep step isFirstStep);;
       lift (executeStep step isFirstStep);;
       ret (if collectOutputPaths then outputPaths ++ [targetPathOf config step]
            else outputPaths)
     else ret outputPaths);
  additionalSteps ← runHook config (postHook step) step;
  executeAdditional config executeStep collectOutputPaths additionalSteps outputPaths.

(** The loop of [build] over the steps. *)
Fixpoint buildLoop (config : ProjectBuilderConfig) (steps : list TemplateStep)
    (isFirstStep : bool) : Run unit :=
  match steps with
  | [] => ret ()
  | step :: steps =>
      executeStepWithHooks config (executeStep config) true step isFirstStep;;
      buildLoop config steps false
  end.

(** [build()] *)
Definition build (this : ProjectBuilder) : Run unit :=
  if bool_decide (steps this = []) then
    throw (Error "No template steps configured. Use addStep() to add template copy operations.")
  else
    lift (checkTarget select
            (mkCopy (default true (config_checkEmpty (config this)))
                    [] false (default false (config_override (config this))) None
                    EmptyString [] [] (targetDir (config this)) [] None));;
    buildLoop (config this) (steps this) true.

End Pipeline.

End Pipeline.

(** ** Properties of the pipeline *)

Section MonadFacts.

Import Effects.

Context {S A B : Type}.

Lemma bind_ok (m : M S A) (k : A → M S B) (s s' : S) (a : A) :
  m s = Some (Ok a, s') → (m ≫= k) s = k a s'.
Proof. intros H. unfold mbind, Eff_bind, bind. by rewrite H. Qed.

Lemma bind_throw (m : M S A) (k : A → M S B) (s s' : S) (e : error) :
  m s = Some (Throw e, s') → (m ≫= k) s = Some (Throw e, s').
Proof. intros H. unfold mbind, Eff_bind, bind. by rewrite H. Qed.

End MonadFacts.

Section HookFacts.

Import Pipeline.

Variable config : ProjectBuilderConfig.
Variable hooks : hook_id → ProjectBuilderConfig → TemplateStep → Eff (option (list TemplateStep)).
Variable executeStep : TemplateStep → bool → Eff unit.
Variable collectOutputPaths : bool.

(** The additional steps that a hook of [step] returns (none for a hook
    that is absent or returns nothing). *)
Definition hookSteps (hook : option hook_id) (step : TemplateStep)
    : Eff (list TemplateStep) :=
  match hook with
  | None => ret []
  | Some id => additionalSteps ← hooks id config step; ret (default [] additionalSteps)
  end.

Definition hookCalls (hook : option hook_id) (step : TemplateStep) : list call :=
  match hook with
  | None => []
  | Some id => [CallHook id step]
  end.

(** The copy of the step itself, for a step with a source. *)
Definition ownCopy (step : TemplateStep) (isFirstStep : bool) : Eff unit :=
  if bool_decide (is_Some (from step)) then executeStep step isFirstStep else ret ().

Definition ownCalls (step : TemplateStep) (isFirstStep : bool) : list call :=
  if bool_decide (is_Some (from step)) then [CallExecuteStep step isFirstStep] else [].

Lemma runHook_calls (hook : option hook_id) (step : TemplateStep)
    (additionalSteps : list TemplateStep) (d d' : disk) (calls : list call) :
  hookSteps hook step d = Some (Ok additionalSteps, d') →
  runHook hooks config hook step (d, calls)
  = Some (Ok additionalSteps, (d', calls ++ hookCalls hook step)).
Proof.
  destruct hook as [id|]; simpl.
  - unfold mbind, Eff_bind, bind, record, lift, ret. simpl.
    destruct (hooks id config step d) as [[[r|e] d1]|]; [| done..].
    by intros [= <- <-].
  - unfold ret. intros [= <- <-]. by rewrite app_nil_r.
Qed.

Lemma executeAdditional_calls (additionalSteps : list TemplateStep)
    (outputPaths : list (list string)) (d d' : disk) (calls : list call) :
  for_each additionalSteps (λ s, executeStep s false) d = Some (Ok (), d') →
  ∃ outputPaths',
    executeAdditional config executeStep collectOutputPaths additionalSteps outputPaths
      (d, calls)
    = Some (Ok outputPaths',
            (d', calls ++ map (λ s, CallExecuteStep s false) additionalSteps)).
Proof.
  revert outputPaths d calls.
  induction additionalSteps as [|s rest IH]; intros outputPaths d calls; simpl.
  - unfold ret. intros [= <-]. rewrite app_nil_r. by eexists.
  - unfold bind at 1. destruct (executeStep s false d) as [[[[]|e] d1]|] eqn:Hs; [| done..].
    intros Hrest.
    destruct (IH (if collectOutputPaths && bool_decide (is_Some (from s))
                  then outputPaths ++ [targetPathOf config s] else outputPaths)
                 d1 (calls ++ [CallExecuteStep s false]) Hrest) as [out Hout].
    exists out. unfold mbind, Eff_bind, bind, record, lift. simpl. rewrite Hs.
    rewrite Hout. by rewrite <- app_assoc.
Qed.

End HookFacts.

(** C9.  When the hooks and the copies end normally: the steps returned
    by the [preHook] are executed at once, in the order of the list and
    before the copy of the step itself; those returned by the [postHook]
    are executed after it, in the order of the list.  The injected steps
    go to [executeStep] only: none of their own hooks is called, so the
    injection is one level deep.  [calls] is the record of the calls
    made, [d0] to [d5] are the states of the disk between them. *)
Theorem C9_injected_steps_run_immediately
    (config : Builder.ProjectBuilderConfig)
    (hooks : Builder.hook_id → Builder.ProjectBuilderConfig → Builder.TemplateStep
             → Effects.Eff (option (list Builder.TemplateStep)))
    (executeStep : Builder.TemplateStep → bool → Effects.Eff unit)
    (collectOutputPaths : bool)
    (step : Builder.TemplateStep) (isFirstStep : bool)
    (injectedBefore injectedAfter : list Builder.TemplateStep)
    (d0 d1 d2 d3 d4 d5 : Effects.disk) (calls : list Pipeline.call) :
  hookSteps config hooks (Builder.preHook step) step d0
    = Some (Builder.Ok injectedBefore, d1) →
  Effects.for_each injectedBefore (λ s, executeStep s false) d1 = Some (Builder.Ok (), d2) →
  ownCopy executeStep step isFirstStep d2 = Some (Builder.Ok (), d3) →
  hookSteps config hooks (Builder.postHook step) step d3
    = Some (Builder.Ok injectedAfter, d4) →
  Effects.for_each injectedAfter (λ s, executeStep s false) d4 = Some (Builder.Ok (), d5) →
  ∃ outputPaths,
    Pipeline.executeStepWithHooks hooks config executeStep collectOutputPaths
      step isFirstStep (d0, calls)
    = Some (Builder.Ok outputPaths,
            (d5,
             calls
             ++ hookCalls (Builder.preHook step) step
             ++ map (λ s, Pipeline.CallExecuteStep s false) injectedBefore
             ++ ownCalls step isFirstStep
             ++ hookCalls (Builder.postHook step) step
             ++ map (λ s, Pipeline.CallExecuteStep s false) injectedAfter)).
Proof.
  intros Hpre Hbefore Hown Hpost Hafter.
  unfold Pipeline.executeStepWithHooks.
  rewrite (bind_ok _ _ _ _ _ (runHook_calls _ _ _ _ _ _ _ _ Hpre)).
  destruct (executeAdditional_calls config executeStep collectOutputPaths
              injectedBefore [] d1 d2
              (calls ++ hookCalls (Builder.preHook step) step) Hbefore) as [out1 Hout1].
  rewrite (bind_ok _ _ _ _ _ Hout1).
  set (calls2 := (calls ++ hookCalls (Builder.preHook step) step)
                 ++ map (λ s, Pipeline.CallExecuteStep s false) injectedBefore).
  assert (Hmid : ∃ out2,
    (if bool_decide (is_Some (Builder.from step)) then
       Pipeline.record (Pipeline.CallExecuteStep step isFirstStep);;
       Pipeline.lift (executeStep step isFirstStep);;
       Effects.ret (if collectOutputPaths
                    then out1 ++ [Pipeline.targetPathOf config step] else out1)
     else Effects.ret out1) (d2, calls2)
    = Some (Builder.Ok out2, (d3, calls2 ++ ownCalls step isFirstStep))).
  { unfold ownCopy, ownCalls in *. case_bool_decide.
    - eexists. unfold mbind, Effects.Eff_bind, Effects.bind, Pipeline.record, Pipeline.lift.
      simpl. rewrite Hown. reflexivity.
    - eexists. unfold Effects.ret in *. injection Hown as <-. by rewrite app_nil_r. }
  destruct Hmid as [out2 Hmid].
  rewrite (bind_ok _ _ _ _ _ Hmid).
  rewrite (bind_ok _ _ _ _ _ (runHook_calls _ _ _ _ _ _ _ _ Hpost)).
  destruct (executeAdditional_calls config executeStep collectOutputPaths
              injectedAfter out2 d4 d5
              ((calls2 ++ ownCalls step isFirstStep)
               ++ hookCalls (Builder.postHook step) step) Hafter) as [out3 Hout3].
  exists out3. rewrite Hout3. unfold calls2. by rewrite <- !app_assoc.
Qed.

Module HookSample.

Import Pipeline.

Definition sample_config : ProjectBuilderConfig := mkConfig None None None ["out"] None.

Definition copyStep (source : string) (pre : option hook_id) : TemplateStep :=
  mkStep None (Some ["t"; source]) None None None None pre None None None None None.

(** The main step, with both hooks. *)
Definition mainStep : TemplateStep :=
  mkStep None (Some ["t"; "main"]) None None None (Some 1%nat) (Some 0%nat)
         None None None None None.

(** Hook 0 returns two steps, the first of which has a hook of its own
    (hook 7); hook 1 returns one step; hook 7 would return one more. *)
Definition sample_hooks (id : hook_id) (_ : ProjectBuilderConfig) (_ : TemplateStep)
    : Eff (option (list TemplateStep)) :=
  match id with
  | 0%nat => ret (Some [copyStep "android" (Some 7%nat); copyStep "ios" None])
  | 1%nat => ret (Some [copyStep "docs" None])
  | _ => ret (Some [copyStep "never" None])
  end.

Definition idle : disk := mkDisk ∅ [] [].

End HookSample.

Lemma C9_injected_steps_run_immediately_witness :
  ∃ outputPaths,
    Pipeline.executeStepWithHooks HookSample.sample_hooks HookSample.sample_config
      (λ _ _, Effects.ret ()) true HookSample.mainStep true (HookSample.idle, [])
    = Some (Builder.Ok outputPaths,
            (HookSample.idle,
             [ Pipeline.CallHook 0 HookSample.mainStep;
               Pipeline.CallExecuteStep (HookSample.copyStep "android" (Some 7%nat)) false;
               Pipeline.CallExecuteStep (HookSample.copyStep "ios" None) false;
               Pipeline.CallExecuteStep HookSample.mainStep true;
               Pipeline.CallHook 1 HookSample.mainStep;
               Pipeline.CallExecuteStep (HookSample.copyStep "docs" None) false ])).
Proof.
  exact (C9_injected_steps_run_immediately HookSample.sample_config HookSample.sample_hooks
           (λ _ _, Effects.ret ()) true HookSample.mainStep true
           [HookSample.copyStep "android" (Some 7%nat); HookSample.copyStep "ios" None]
           [HookSample.copyStep "docs" None]
           HookSample.idle HookSample.idle HookSample.idle HookSample.idle
           HookSample.idle HookSample.idle []
           eq_refl eq_refl eq_refl eq_refl eq_refl).
Defined.

Section PrepareFacts.

Import Pipeline.

Variable shell : string → list string → list string → ending.
Variable variables : VariablesMap.

(** The command line of a marker with the given content. *)
Definition commandLine (content : string) : string :=
  if negb (bool_decide (variables = []))
  then default (JsString.trim content) (substitute (JsString.trim content) variables)
  else JsString.trim content.

(** The process that [executeCommand] starts for a command line. *)
Definition spawnedFor (command : string) (commandFile : list string) : spawned :=
  mkSpawned (hd EmptyString (split command " ")) (tl (split command " "))
            (parent commandFile).

Definition endingOf (command : string) (commandFile : list string) : ending :=
  shell (hd EmptyString (split command " ")) (tl (split command " ")) (parent commandFile).

(** A marker that can be read and whose command, if it has one, exits
    with code zero. *)
Definition marker_passes (w : gmap (list string) node) (commandFile : list string) : Prop :=
  ∃ f, w !! commandFile = Some (File f) ∧ readable f = true
       ∧ (commandLine (data f) = ""
          ∨ endingOf (commandLine (data f)) commandFile = Closed (Some 0%Z)).

(** A marker that can be read and whose command does not exit with code
    zero: another code, a signal, or a process that could not start. *)
Definition marker_fails (w : gmap (list string) node) (commandFile : list string) : Prop :=
  ∃ f, w !! commandFile = Some (File f) ∧ readable f = true
       ∧ commandLine (data f) ≠ ""
       ∧ endingOf (commandLine (data f)) commandFile ≠ Closed (Some 0%Z).

(** The processes started for the markers of a list, in order: one for
    each marker whose command line is not empty. *)
Definition spawnedAll (w : gmap (list string) node) (commandFiles : list (list string))
    : list spawned :=
  flat_map (λ p, match w !! p with
                 | Some (File f) =>
                     if String.eqb (commandLine (data f)) "" then []
                     else [spawnedFor (commandLine (data f)) p]
                 | _ => []
                 end) commandFiles.

Lemma commandText_eq (content : string) (d : disk) :
  ∃ console, commandText (JsString.trim content) variables d
             = Some (Ok (commandLine content), mkDisk (d_fs d) console (d_spawned d)).
Proof.
  unfold commandText, commandLine. destruct d as [w console spawned].
  destruct (negb (bool_decide (variables = []))); [| by eexists].
  destruct (substitute_total variables (JsString.trim content)) as [text ->].
  by eexists.
Qed.

Lemma unlinkSync_file (w : gmap (list string) node) (p : list string) (f : file) :
  w !! p = Some (File f) →
  unlinkSync w p = Some (delete p (alter (removeEntry (basename p)) (parent p) w)).
Proof. intros H. unfold unlinkSync. by rewrite H. Qed.

Lemma unlinked_gone (w : gmap (list string) node) (p : list string) :
  delete p (alter (removeEntry (basename p)) (parent p) w) !! p = None.
Proof. apply lookup_delete_eq. Qed.

Lemma unlinked_other_file (w : gmap (list string) node) (p q : list string) (f : file) :
  p ≠ q → w !! q = Some (File f) →
  delete p (alter (removeEntry (basename p)) (parent p) w) !! q = Some (File f).
Proof.
  intros Hne Hq. rewrite lookup_delete_ne by done.
  destruct (decide (parent p = q)) as [<-|Hpq].
  - rewrite lookup_alter_eq, Hq. done.
  - by rewrite lookup_alter_ne.
Qed.

Lemma unlinked_absent (w : gmap (list string) node) (p q : list string) :
  w !! q = None →
  delete p (alter (removeEntry (basename p)) (parent p) w) !! q = None.
Proof.
  intros Hq. destruct (decide (p = q)) as [->|Hne]; [apply lookup_delete_eq |].
  rewrite lookup_delete_ne by done.
  destruct (decide (parent p = q)) as [<-|Hpq].
  - rewrite lookup_alter_eq, Hq. done.
  - by rewrite lookup_alter_ne.
Qed.

Lemma read_marker (p : list string) (f : file) (d : disk) :
  d_fs d !! p = Some (File f) → readable f = true →
  sys "readFile" p (λ w, readFileSync w p) d = Some (Ok (data f), d).
Proof. intros Hp Hr. unfold sys, readFileSync. by rewrite Hp, Hr. Qed.

Lemma unlink_marker (p : list string) (f : file) (d : disk) :
  d_fs d !! p = Some (File f) →
  sys_update "unlink" p (λ w, unlinkSync w p) d
  = Some (Ok (), mkDisk (delete p (alter (removeEntry (basename p)) (parent p) (d_fs d)))
                        (d_console d) (d_spawned d)).
Proof. intros Hp. unfold sys_update. by rewrite (unlinkSync_file _ _ _ Hp). Qed.

Lemma executeCommand_ending (command : string) (p : list string) (d : disk) :
  ∃ console,
    executeCommand shell command (parent p) d
    = Some ((if bool_decide (endingOf command p = Closed (Some 0%Z)) then Ok ()
             else Throw (Error (match endingOf command p with
                                | SpawnFailed => "Failed to execute command " +:+ command
                                | Closed _ => "Command exited with code: " +:+ command
                                end))),
            mkDisk (d_fs d) console (d_spawned d ++ [spawnedFor command p])).
Proof.
  unfold executeCommand. fold (endingOf command p). fold (spawnedFor command p).
  unfold mbind, Eff_bind, bind, log, throw. cbn [d_fs d_console d_spawned].
  destruct (endingOf command p) as [[[| |]|]|]; by eexists.
Qed.

(** A marker that passes: its command is run, if it has one, and then the
    marker is deleted. *)
Lemma prepareOne_passes (p : list string) (f : file) (d : disk) :
  d_fs d !! p = Some (File f) → readable f = true →
  (commandLine (data f) = "" ∨ endingOf (commandLine (data f)) p = Closed (Some 0%Z)) →
  ∃ console,
    prepareOne shell variables p d
    = Some (Ok (),
            mkDisk (delete p (alter (removeEntry (basename p)) (parent p) (d_fs d)))
                   console
                   (d_spawned d ++ if String.eqb (commandLine (data f)) "" then []
                                   else [spawnedFor (commandLine (data f)) p])).
Proof.
  intros Hp Hr Hcmd. unfold prepareOne, try_catch.
  rewrite (bind_ok _ _ _ _ _ (read_marker _ _ _ Hp Hr)).
  destruct (commandText_eq (data f) d) as [console1 Htext].
  rewrite (bind_ok _ _ _ _ _ Htext).
  destruct (String.eqb (commandLine (data f)) "") eqn:Hblank; cbn [negb].
  - rewrite (bind_ok (ret ()) _ _ _ _ eq_refl).
    rewrite (bind_ok _ _ _ _ _
               (unlink_marker p f (mkDisk (d_fs d) console1 (d_spawned d)) Hp)).
    unfold log. cbn [d_fs d_console d_spawned]. rewrite app_nil_r. by eexists.
  - destruct Hcmd as [Hcmd|Hcmd]; [by apply String.eqb_neq in Hblank |].
    destruct (executeCommand_ending (commandLine (data f)) p
                (mkDisk (d_fs d) (console1 ++ [InfoExecuting (commandLine (data f))])
                        (d_spawned d))) as [console2 Hexec].
    rewrite Hcmd in Hexec. rewrite bool_decide_eq_true_2 in Hexec by done.
    assert (Hrun : (log (InfoExecuting (commandLine (data f)));;
                    executeCommand shell (commandLine (data f)) (parent p))
                     (mkDisk (d_fs d) console1 (d_spawned d))
                   = Some (Ok (), mkDisk (d_fs d) console2
                                    (d_spawned d ++ [spawnedFor (commandLine (data f)) p]))).
    { unfold mbind, Eff_bind, bind, log. cbn [d_fs d_console d_spawned]. exact Hexec. }
    rewrite (bind_ok _ _ _ _ _ Hrun).
    rewrite (bind_ok _ _ _ _ _
               (unlink_marker p f (mkDisk (d_fs d) console2
                  (d_spawned d ++ [spawnedFor (commandLine (data f)) p])) Hp)).
    unfold log. cbn [d_fs d_console d_spawned]. by eexists.
Qed.

(** A marker that fails: its command is run, the error is thrown again,
    and the marker is not deleted. *)
Lemma prepareOne_fails (p : list string) (f : file) (d : disk) :
  d_fs d !! p = Some (File f) → readable f = true →
  commandLine (data f) ≠ "" →
  endingOf (commandLine (data f)) p ≠ Closed (Some 0%Z) →
  ∃ e console,
    prepareOne shell variables p d
    = Some (Throw e,
            mkDisk (d_fs d) console
                   (d_spawned d ++ [spawnedFor (commandLine (data f)) p])).
Proof.
  intros Hp Hr Hblank Hcmd. unfold prepareOne, try_catch.
  rewrite (bind_ok _ _ _ _ _ (read_marker _ _ _ Hp Hr)).
  destruct (commandText_eq (data f) d) as [console1 Htext].
  rewrite (bind_ok _ _ _ _ _ Htext).
  apply String.eqb_neq in Hblank. rewrite Hblank. cbn [negb].
  destruct (executeCommand_ending (commandLine (data f)) p
              (mkDisk (d_fs d) (console1 ++ [InfoExecuting (commandLine (data f))])
                      (d_spawned d))) as [console2 Hexec].
  rewrite bool_decide_eq_false_2 in Hexec by done.
  assert (Hrun : (log (InfoExecuting (commandLine (data f)));;
                  executeCommand shell (commandLine (data f)) (parent p))
                   (mkDisk (d_fs d) console1 (d_spawned d))
                 = Some (Throw (Error (match endingOf (commandLine (data f)) p with
                                       | SpawnFailed =>
                                           "Failed to execute command "
                                           +:+ commandLine (data f)
                                       | Closed _ =>
                                           "Command exited with code: "
                                           +:+ commandLine (data f)
                                       end)),
                         mkDisk (d_fs d) console2
                           (d_spawned d ++ [spawnedFor (commandLine (data f)) p]))).
  { unfold mbind, Eff_bind, bind, log. cbn [d_fs d_console d_spawned]. exact Hexec. }
  rewrite (bind_throw _ _ _ _ _ Hrun).
  unfold mbind, Eff_bind, bind, log, throw. cbn [d_fs d_console d_spawned].
  by eexists _, _.
Qed.

Lemma spawnedAll_ext (w w' : gmap (list string) node) (ps : list (list string)) :
  (∀ p, p ∈ ps → w' !! p = w !! p) → spawnedAll w' ps = spawnedAll w ps.
Proof.
  induction ps as [|p ps IH]; intros H; [done |].
  unfold spawnedAll in *. simpl. rewrite (H p) by left.
  rewrite IH; [done |]. intros q Hq. apply H. by right.
Qed.

(** The loop over the markers, up to the first one that fails. *)
Lemma prepare_loop (before after : list (list string)) (m : list string) (d : disk) :
  NoDup (before ++ m :: after) →
  Forall (marker_passes (d_fs d)) before →
  marker_fails (d_fs d) m →
  ∃ e d',
    for_each (before ++ m :: after) (prepareOne shell variables) d = Some (Throw e, d')
    ∧ (∀ p, p ∈ before → d_fs d' !! p = None)
    ∧ (∀ q f, q ∉ before → d_fs d !! q = Some (File f) → d_fs d' !! q = Some (File f))
    ∧ (∀ q, d_fs d !! q = None → d_fs d' !! q = None)
    ∧ d_spawned d' = d_spawned d ++ spawnedAll (d_fs d) (before ++ [m]).
Proof.
  revert d. induction before as [|p before IH]; intros d Hnd Hpass Hfail.
  - destruct Hfail as (f & Hm & Hr & Hblank & Hend).
    destruct (prepareOne_fails m f d Hm Hr Hblank Hend) as (e & console & Hone).
    exists e, (mkDisk (d_fs d) console (d_spawned d ++ [spawnedFor (commandLine (data f)) m])).
    cbn [app for_each]. unfold bind. rewrite Hone. cbn [d_fs d_spawned].
    split_and!; [done | by intros ? ?%elem_of_nil | done | done |].
    unfold spawnedAll. simpl. rewrite Hm.
    apply String.eqb_neq in Hblank. by rewrite Hblank.
  - apply Forall_cons in Hpass as [(f & Hp & Hr & Hcmd) Hpass].
    cbn [app] in Hnd. apply NoDup_cons in Hnd as [Hpnot Hnd].
    destruct (prepareOne_passes p f d Hp Hr Hcmd) as (console & Hone).
    set (d1 := mkDisk (delete p (alter (removeEntry (basename p)) (parent p) (d_fs d)))
                      console
                      (d_spawned d ++ if String.eqb (commandLine (data f)) "" then []
                                      else [spawnedFor (commandLine (data f)) p])) in *.
    assert (Hkeep : ∀ q g, q ≠ p → d_fs d !! q = Some (File g) →
                           d_fs d1 !! q = Some (File g)).
    { intros q g Hq Hg. by apply unlinked_other_file. }
    destruct (IH d1) as (e & d' & Hloop & Hgone & Hfiles & Habsent & Hspawned).
    + exact Hnd.
    + apply Forall_forall. intros q Hq.
      rewrite Forall_forall in Hpass. destruct (Hpass q Hq) as (g & Hg & Hrest).
      exists g. split; [| exact Hrest]. apply Hkeep; [| done].
      intros ->. apply Hpnot, elem_of_app. by left.
    + destruct Hfail as (g & Hg & Hrest). exists g. split; [| exact Hrest].
      apply Hkeep; [| done]. intros ->. apply Hpnot, elem_of_app. right. by left.
    + exists e, d'. cbn [app for_each]. unfold bind at 1. rewrite Hone. fold d1.
      split_and!.
      * exact Hloop.
      * intros q [->|Hq]%elem_of_cons; [| by apply Hgone].
        apply Habsent. apply unlinked_gone.
      * intros q g [Hqp Hq]%not_elem_of_cons Hg. apply Hfiles; [done |]. by apply Hkeep.
      * intros q Hq. apply Habsent. by apply unlinked_absent.
      * rewrite Hspawned. cbn [d_spawned d1]. rewrite <- app_assoc. f_equal.
        rewrite (spawnedAll_ext (d_fs d) (d_fs d1)).
        -- unfold spawnedAll. simpl. by rewrite Hp.
        -- intros q Hq.
           assert (Hqp : q ≠ p).
           { intros ->. apply Hpnot. apply elem_of_app in Hq as [Hq|Hq%list_elem_of_singleton];
               apply elem_of_app; [by left | right; subst; by left]. }
           assert (∃ g, d_fs d !! q = Some (File g)) as [g Hg].
           { apply elem_of_app in Hq as [Hq|Hq%list_elem_of_singleton].
             - rewrite Forall_forall in Hpass. destruct (Hpass q Hq) as (g & Hg & _). eauto.
             - subst. destruct Hfail as (g & Hg & _). eauto. }
           by rewrite Hg, (Hkeep q g Hqp Hg).
Qed.

End PrepareFacts.

Section FindFacts.

Import Pipeline.

Variable w : gmap (list string) node.

Implicit Types rec : list string → option (list (list string) * list log_entry).
Implicit Types dir : list string.
Implicit Types files : list string.

Lemma findLoop_total rec dir files found log :
  (∀ file, is_Some (w !! (dir ++ [file])) → is_Some (rec (dir ++ [file]))) →
  is_Some (findLoop w rec dir files found log).
Proof.
  intros Hrec. revert found log.
  induction files as [|file files IH]; intros found log; [by eexists |].
  cbn [findLoop]. unfold statSync.
  destruct (w !! (dir ++ [file])) as [stat|] eqn:Hstat; [| by eexists].
  destruct (isFile stat && String.eqb file "<prepare_command>"); [apply IH |].
  destruct (isDirectory stat); [| apply IH].
  destruct (Hrec file) as [r ->]; [by rewrite Hstat |]. apply IH.
Qed.

Lemma findFuel_total (fuel : nat) dir :
  (size (deeper w dir) < fuel)%nat → is_Some (findFuel w fuel dir).
Proof.
  revert dir. induction fuel as [|fuel IH]; intros dir Hsize; [lia |].
  cbn [findFuel]. destruct (negb (existsSync w dir)); [by eexists |].
  destruct (readdirSync w dir); [| by eexists].
  apply findLoop_total. intros file Hfile. apply IH.
  assert (Hsub : deeper w (dir ++ [file]) ⊂ deeper w dir).
  { apply strict_spec_alt. split.
    - intros p [Hp Hin]%elem_of_filter. apply elem_of_filter. split; [| done].
      rewrite length_app in Hp. simpl in Hp. lia.
    - intros Heq. assert (dir ++ [file] ∈ deeper w dir) as Hd.
      { apply elem_of_filter. split; [| by apply elem_of_dom].
        rewrite length_app. simpl. lia. }
      rewrite <- Heq in Hd. apply elem_of_filter in Hd as [Hd _]. lia. }
  apply subset_size in Hsub. lia.
Qed.

(** The scan for markers ends on every file system. *)
Lemma findPrepareCommandFiles_total dir : is_Some (findPrepareCommandFiles w dir).
Proof.
  apply findFuel_total.
  assert (Hsub : deeper w dir ⊆ dom w) by (intros p [_ Hp]%elem_of_filter; exact Hp).
  apply subseteq_size in Hsub. rewrite size_dom in Hsub. lia.
Qed.

End FindFacts.

(** C10.  Let the scan of the target directory find the markers
    [before ++ m :: after], in this order, where every marker of [before]
    passes (its command line is empty or exits with code zero) and [m]
    fails (its command exits with another code, is ended by a signal or
    cannot be started).  Then [executePrepareCommands] throws; the markers
    of [before] are deleted, [m] is still on the disk as it was, and so is
    every marker of [after]; and the processes started are those of
    [before] and that of [m], none of [after]. *)
Theorem C10_marker_is_deleted_only_after_success
    (shell : string → list string → list string → Pipeline.ending)
    (variables : Templater.VariablesMap) (targetDir : list string) (d : Effects.disk)
    (before after : list (list string)) (m : list string)
    (warnings : list Resolver.log_entry) :
  Pipeline.findPrepareCommandFiles (Effects.d_fs d) targetDir
    = Some (before ++ m :: after, warnings) →
  NoDup (before ++ m :: after) →
  Forall (marker_passes shell variables (Effects.d_fs d)) before →
  marker_fails shell variables (Effects.d_fs d) m →
  ∃ e d',
    Pipeline.executePrepareCommands shell targetDir variables d
      = Some (Builder.Throw e, d')
    ∧ (∀ p, p ∈ before → Effects.d_fs d' !! p = None)
    ∧ Effects.d_fs d' !! m = Effects.d_fs d !! m
    ∧ (∀ q f, q ∈ after → Effects.d_fs d !! q = Some (Fs.File f) →
              Effects.d_fs d' !! q = Some (Fs.File f))
    ∧ Effects.d_spawned d'
      = Effects.d_spawned d ++ spawnedAll variables (Effects.d_fs d) (before ++ [m]).
Proof.
  intros Hfind Hnd Hpass Hfail.
  set (d1 := Effects.mkDisk (Effects.d_fs d)
               ((Effects.d_console d ++ warnings)
                ++ [Resolver.InfoFound (length (before ++ m :: after))])
               (Effects.d_spawned d)).
  destruct (prepare_loop shell variables before after m d1 Hnd Hpass Hfail)
    as (e & d' & Hloop & Hgone & Hfiles & Habsent & Hspawned).
  exists e, d'. split_and!.
  - unfold Pipeline.executePrepareCommands.
    unfold mbind, Effects.Eff_bind, Effects.bind, Effects.bounded, Effects.logs, Effects.log.
    rewrite Hfind. cbn [fst snd Effects.d_fs Effects.d_console Effects.d_spawned].
    rewrite bool_decide_eq_false_2 by (by destruct before).
    exact Hloop.
  - exact Hgone.
  - destruct Hfail as (f & Hm & _). cbn [Effects.d_fs d1] in Hfiles. rewrite Hm.
    apply Hfiles; [| done]. apply NoDup_app in Hnd as (_ & Hdisj & _).
    intros Hin. apply (Hdisj m Hin). by left.
  - intros q f Hq Hf. apply Hfiles; [| done].
    apply NoDup_app in Hnd as (_ & Hdisj & _).
    intros Hin. apply (Hdisj q Hin). by right.
  - exact Hspawned.
Qed.

Module PrepareSample.

Import Pipeline.

Definition marker (command : string) : node := File (mkFile true true command).

(** Three markers below the target directory. *)
Definition markers_fs : gmap (list string) node :=
  list_to_map
    [ (["out"], Dir ["android"; "ios"; "web"]);
      (["out"; "android"], Dir ["<prepare_command>"]);
      (["out"; "android"; "<prepare_command>"], marker "gradle wrapper");
      (["out"; "ios"], Dir ["<prepare_command>"; "Podfile"]);
      (["out"; "ios"; "<prepare_command>"], marker "pod install --name {{appName}}");
      (["out"; "ios"; "Podfile"], marker "");
      (["out"; "web"], Dir ["<prepare_command>"]);
      (["out"; "web"; "<prepare_command>"], marker "npm install") ].

(** A shell in which [pod] exits with code 1 and every other command
    with code 0. *)
Definition markers_shell (cmd : string) (_ : list string) (_ : list string) : ending :=
  if String.eqb cmd "pod" then Closed (Some 1%Z) else Closed (Some 0%Z).

Definition markers_variables : VariablesMap := [("appName", VStr "Demo")].

Definition markers_disk : disk := mkDisk markers_fs [] [].

End PrepareSample.

Lemma C10_marker_is_deleted_only_after_success_witness :
  ∃ e d',
    Pipeline.executePrepareCommands PrepareSample.markers_shell ["out"]
      PrepareSample.markers_variables PrepareSample.markers_disk
      = Some (Builder.Throw e, d')
    ∧ Effects.d_fs d' !! ["out"; "android"; "<prepare_command>"] = None
    ∧ Effects.d_fs d' !! ["out"; "ios"; "<prepare_command>"]
      = Some (PrepareSample.marker "pod install --name {{appName}}")
    ∧ Effects.d_fs d' !! ["out"; "web"; "<prepare_command>"]
      = Some (PrepareSample.marker "npm install")
    ∧ Effects.d_spawned d'
      = [ Effects.mkSpawned "gradle" ["wrapper"] ["out"; "android"];
          Effects.mkSpawned "pod" ["install"; "--name"; "Demo"] ["out"; "ios"] ].
Proof.
  destruct (C10_marker_is_deleted_only_after_success
              PrepareSample.markers_shell PrepareSample.markers_variables ["out"]
              PrepareSample.markers_disk
              [["out"; "android"; "<prepare_command>"]]
              [["out"; "web"; "<prepare_command>"]]
              ["out"; "ios"; "<prepare_command>"] [])
    as (e & d' & Hrun & Hgone & Hstays & Hlater & Hspawned).
  - by vm_compute.
  - apply (bool_decide_unpack _). by vm_compute.
  - constructor; [| constructor]. eexists. split_and!; [by vm_compute | done |].
    right. by vm_compute.
  - eexists. split_and!; [by vm_compute | done | by vm_compute | by vm_compute].
  - exists e, d'. split_and!.
    + exact Hrun.
    + apply Hgone. by left.
    + rewrite Hstays. by vm_compute.
    + eapply Hlater; [by left | by vm_compute].
    + rewrite Hspawned. by vm_compute.
Defined.

(** *** A whole run: [loadTemplate] and [build] on a chain of templates *)

Module BuildSample.

Import Pipeline Samples.

(** specific inherits common, common inherits base; the three hold a file
    of the same name, and specific holds a prepare command. *)
Definition override_fs : gmap (list string) node :=
  list_to_map
    [ (template "specific", Dir ["<inherit:common>"; "shared.txt"; "<prepare_command>"]);
      (template "specific" ++ ["<inherit:common>"], emptyFile);
      (template "specific" ++ ["shared.txt"], textFile "specific {{name}}");
      (template "specific" ++ ["<prepare_command>"], textFile "echo {{name}}");
      (template "common", Dir ["shared.txt"; "<inherit:base>"; "common.txt"]);
      (template "common" ++ ["shared.txt"], textFile "common");
      (template "common" ++ ["common.txt"], textFile "common only");
      (template "common" ++ ["<inherit:base>"], emptyFile);
      (template "base", Dir ["shared.txt"; "base.txt"]);
      (template "base" ++ ["shared.txt"], textFile "base");
      (template "base" ++ ["base.txt"], textFile "base only") ].

Definition run_config : ProjectBuilderConfig := mkConfig None (Some true) None ["out"] None.

Definition run_options : LoadOptions :=
  mkOptions None None None (Some (VariablesOf [("name", VStr "demo")])).

(** [await builder.loadTemplate(...); await builder.build()], and what is
    on the disk afterwards. *)
Definition run : option (result unit * list spawned * list (option node)) :=
  match loadTemplate templates (create run_config) (template "specific")
          (Some run_options) (mkDisk override_fs [] []) with
  | Some (Ok builder, d) =>
      match build (λ _, None) (λ _, EmptyString) (λ _, AnswerYes)
              (λ _ _ _, Closed (Some 0%Z)) (λ _ _ _, ret None) builder (d, []) with
      | Some (r, (d', _)) =>
          Some (r, d_spawned d',
                map (λ p, d_fs d' !! p)
                    [ ["out"; "shared.txt"]; ["out"; "base.txt"]; ["out"; "common.txt"];
                      ["out"; "<prepare_command>"]; ["out"; "<inherit:common>"] ])
      | None => None
      end
  | _ => None
  end.

(** The copy of the most derived template is the one that stays. *)
Example build_chain :
  run = Some (Ok (),
              [mkSpawned "echo" ["demo"] ["out"]],
              [ Some (textFile "specific demo"); Some (textFile "base only");
                Some (textFile "common only"); None; None ]).
Proof. vm_compute. reflexivity. Qed.

End BuildSample.
